(** * UEFI PI firmware probe (hw/arc/efi.c): shallow embedding and properties

    The development follows the C source function by function.

    - Integers are [Z] with the wrap-around of their C type written out
      ([wrap32], [wrap64]); bytes are [Byte.byte].
    - Pointers are 64-bit addresses.  The heap block returned by [g_malloc]
      is a base address together with the bytes it holds; a load from an
      address outside the block is the outcome [OutOfBounds] (in C: undefined
      behaviour, the read goes past the buffer).
    - The two [while] loops take fuel; running out of it is the outcome
      [OutOfFuel], so that non-termination is observable.
    - System calls and the ROM sink are recorded in an event trace that is
      threaded through [load_firmware] and [efi_probe_firmware].
    - Struct offsets are those of the LP64 ABI (natural alignment), and
      multi-byte fields are little-endian.  Diagnostic output ([ee], [ii],
      [print_te_hdr]) has no effect on results and is not modelled. *)

From Stdlib Require Import ZArith String List Bool Lia.
From Stdlib.Strings Require Import Byte.
Import ListNotations.
Local Open Scope Z_scope.

(** ** Machine integers and bytes *)

Definition wrap32 (z : Z) : Z := z mod 2 ^ 32.
Definition wrap64 (z : Z) : Z := z mod 2 ^ 64.

Definition b2z (b : byte) : Z := Z.of_N (Byte.to_N b).

(** Byte with the given value (taken modulo 256); used to write inputs. *)
Definition z2b (z : Z) : byte :=
  match Byte.of_N (Z.to_N (z mod 256)) with
  | Some b => b
  | None => x00
  end.

(** Little-endian value of a byte sequence. *)
Fixpoint le_val (bs : list byte) : Z :=
  match bs with
  | [] => 0
  | b :: tl => b2z b + 256 * le_val tl
  end.

(** Little-endian encoding of [z] on [n] bytes. *)
Fixpoint le_bytes (n : nat) (z : Z) : list byte :=
  match n with
  | O => []
  | S k => z2b z :: le_bytes k (z / 256)
  end.

(** Bytes [off, off+n) of a sequence. *)
Definition slice (bs : list byte) (off n : nat) : list byte :=
  firstn n (skipn off bs).

Definition zeros (n : nat) : list byte := repeat x00 n.

(** ** Constants of efi.h and efi.c *)

Definition EFI_INVALID_ENTRY_POINT : Z := 0xffffffff.

Definition SECURITY_CORE : Z := 0x03.
Definition SECTION_TE : Z := 0x12.

(** "_FVH" and "VZ" *)
Definition FV_SIGNATURE : list byte := [x5f; x46; x56; x48].
Definition TE_SIGNATURE : list byte := [x56; x5a].

Definition RESET_VECTOR_SIZE : nat := 16.

(** ** Struct layouts

    Byte offsets of the fields, one module per struct, named after the
    variables of the source, so that [file.type] is the offset read by
    [file->type] and [fv.sizeof] is [sizeof(fv)]. *)

(** struct fv_hdr *)
Module fv.
Definition reset_vector : nat := 0.
Definition guid : nat := 16.
Definition fv_len : nat := 32.
Definition sign : nat := 40.
Definition attrs : nat := 44.
Definition hdr_len : nat := 48.
Definition sizeof : nat := 56.
End fv.

(** struct file_hdr *)
Module file.
Definition guid : Z := 0.
Definition integrity : Z := 16.
Definition type : Z := 18.
Definition attrs : Z := 19.
Definition size : Z := 20.
Definition state : Z := 23.
Definition sizeof : Z := 24.
End file.

(** struct sect_hdr *)
Module sect.
Definition size : Z := 0.
Definition type : Z := 3.
Definition sizeof : Z := 4.
End sect.

(** struct te_hdr *)
Module te.
Definition sign : Z := 0.
Definition mach : Z := 2.
Definition sects_num : Z := 4.
Definition subsys : Z := 5.
Definition stripped_size : Z := 6.
Definition entry_point : Z := 8.
Definition code_base : Z := 12.
Definition image_base : Z := 16.
Definition data_dir : Z := 24.
Definition sizeof : Z := 32.
End te.

(** The volume header as [efi_probe_firmware] holds it on its stack after
    the first [read]. *)
Record fv_hdr := mk_fv_hdr {
  reset_vector : list byte;
  fv_guid : list byte;
  fv_len : Z;
  fv_sign : Z;
  fv_attrs : Z;
  hdr_len : Z
}.

Definition decode_fv_hdr (bs : list byte) : fv_hdr :=
  {| reset_vector := slice bs fv.reset_vector RESET_VECTOR_SIZE;
     fv_guid := slice bs fv.guid 16;
     fv_len := le_val (slice bs fv.fv_len 8);
     fv_sign := le_val (slice bs fv.sign 4);
     fv_attrs := le_val (slice bs fv.attrs 4);
     hdr_len := le_val (slice bs fv.hdr_len 2) |}.

(** ** Outcomes of running the code

    [Ret a]: the code returns [a].  [OutOfBounds addr]: the code reads the
    byte at [addr], which lies outside the blob.  [OutOfFuel]: a loop is
    still running when the fuel is used up. *)

Inductive outcome (A : Type) : Type :=
| Ret (a : A)
| OutOfBounds (addr : Z)
| OutOfFuel.
Arguments Ret {A} a.
Arguments OutOfBounds {A} addr.
Arguments OutOfFuel {A}.

Definition bind {A B : Type} (x : outcome A) (k : A -> outcome B) : outcome B :=
  match x with
  | Ret a => k a
  | OutOfBounds addr => OutOfBounds addr
  | OutOfFuel => OutOfFuel
  end.

Notation "x <- e ;; k" := (bind e (fun x => k))
  (at level 61, e at next level, right associativity).


(** ** The loaded blob *)

Record blob_t := mk_blob {
  blob_base : Z;
  blob_data : list byte
}.

Definition blob_len (m : blob_t) : Z := Z.of_nat (length (blob_data m)).

Definition in_blob (m : blob_t) (a : Z) : bool :=
  (blob_base m <=? a) && (a <? blob_base m + blob_len m).

(** [*(uint8_t * ) a] *)
Definition load8 (m : blob_t) (a : Z) : outcome Z :=
  if in_blob m a
  then Ret (b2z (nth (Z.to_nat (a - blob_base m)) (blob_data m) x00))
  else OutOfBounds a.

(** [*(uint16_t * ) a] and [*(uint32_t * ) a] *)
Definition load16 (m : blob_t) (a : Z) : outcome Z :=
  b0 <- load8 m a ;;
  b1 <- load8 m (a + 1) ;;
  Ret (b0 + 256 * b1).

Definition load32 (m : blob_t) (a : Z) : outcome Z :=
  b0 <- load8 m a ;;
  b1 <- load8 m (a + 1) ;;
  b2 <- load8 m (a + 2) ;;
  b3 <- load8 m (a + 3) ;;
  Ret (b0 + 256 * b1 + 65536 * b2 + 16777216 * b3).

(** ** get_size, align4_ptr, align8_ptr, reset_vector_empty, check_te_sign *)

(** [(uint32_t) (size[0] | size[1] << 8 | size[2] << 16) & 0x0fff] *)
Definition get_size (s0 s1 s2 : Z) : Z :=
  Z.land (wrap32 (Z.lor (Z.lor s0 (Z.shiftl s1 8)) (Z.shiftl s2 16))) 0x0fff.

(** [get_size] applied to the three bytes at address [a]. *)
Definition load_size (m : blob_t) (a : Z) : outcome Z :=
  s0 <- load8 m a ;;
  s1 <- load8 m (a + 1) ;;
  s2 <- load8 m (a + 2) ;;
  Ret (get_size s0 s1 s2).

Definition align4_ptr (ptr : Z) : Z :=
  Z.land (wrap64 (ptr + 3)) (wrap64 (Z.lnot 3)).

Definition align8_ptr (ptr : Z) : Z :=
  Z.land (wrap64 (ptr + 7)) (wrap64 (Z.lnot 7)).

(** The loop leaves [i] at the first non-zero byte, or at 16. *)
Fixpoint reset_vector_scan (buf : list byte) (i : nat) (n : nat) : nat :=
  match n with
  | O => i
  | S k =>
      if b2z (nth i buf x00) =? 0
      then reset_vector_scan buf (S i) k
      else i
  end.

Definition reset_vector_empty (buf : list byte) : bool :=
  Nat.eqb (reset_vector_scan buf 0 RESET_VECTOR_SIZE) RESET_VECTOR_SIZE.

Definition check_te_sign (m : blob_t) (te_ptr : Z) : outcome bool :=
  sign <- load16 m (te_ptr + te.sign) ;;
  Ret (sign =? le_val TE_SIGNATURE).

(** ** get_sec_entry_point *)

(** The [while (ptr < end)] loop over the sections. *)
Fixpoint sect_loop (fuel : nat) (m : blob_t) (ptr end_ : Z) : outcome Z :=
  match fuel with
  | O => OutOfFuel
  | S fuel' =>
      if ptr <? end_ then
        type <- load8 m (ptr + sect.type) ;;
        if negb (type =? SECTION_TE) then
          sz <- load_size m (ptr + sect.size) ;;
          sect_loop fuel' m (align4_ptr (wrap64 (ptr + sz))) end_
        else
          let te_ptr := ptr + sect.sizeof in
          ok <- check_te_sign m te_ptr ;;
          if negb ok then Ret EFI_INVALID_ENTRY_POINT
          else load32 m (te_ptr + te.entry_point)
      else Ret EFI_INVALID_ENTRY_POINT
  end.

Definition get_sec_entry_point (fuel : nat) (m : blob_t) (file_ptr : Z)
  : outcome Z :=
  let ptr := wrap64 (file_ptr + file.sizeof) in
  sz <- load_size m (file_ptr + file.size) ;;
  let end_ := wrap64 (ptr + sz) in
  sect_loop fuel m (align4_ptr ptr) end_.

(** ** get_entry_point *)

(** The [while (ptr < end)] loop over the file entries; [sfuel] is the fuel
    handed to the section loop. *)
Fixpoint file_loop (fuel : nat) (sfuel : nat) (m : blob_t) (ptr end_ : Z)
  : outcome Z :=
  match fuel with
  | O => OutOfFuel
  | S fuel' =>
      if ptr <? end_ then
        type <- load8 m (ptr + file.type) ;;
        if type =? SECURITY_CORE then get_sec_entry_point sfuel m ptr
        else
          sz <- load_size m (ptr + file.size) ;;
          file_loop fuel' sfuel m (align8_ptr (wrap64 (ptr + sz))) end_
      else Ret EFI_INVALID_ENTRY_POINT
  end.

Definition get_entry_point (fuel : nat) (m : blob_t) (h : fv_hdr) : outcome Z :=
  let ptr := wrap64 (blob_base m + hdr_len h) in
  let end_ := wrap64 (ptr + fv_len h) in
  file_loop fuel fuel m (align8_ptr ptr) end_.

(** ** Operating system, heap and ROM sink

    What the probe does to its environment is recorded as a trace of
    events, oldest first. *)

Inductive whence := SEEK_SET | SEEK_END.

Inductive event : Type :=
| EvOpen (path : string)
| EvLseek (off : Z) (w : whence)
| EvRead (count : Z)
| EvMalloc (size : Z)
| EvRomAddBlobFixed (name : string) (data : list byte) (size : Z) (addr : Z)
| EvFree
| EvClose.

(** The environment of one call: which paths [open] succeeds on and what
    the file holds, which [read] calls fail with -1 (counted from 0 in call
    order), and the address [g_malloc] hands out. *)
Record world := mk_world {
  w_open : string -> option (list byte);
  w_read_error : nat -> bool;
  w_heap : Z
}.

(** Trace so far, offset of the open descriptor, number of [read] calls
    made. *)
Record state := mk_state {
  st_trace : list event;
  st_pos : Z;
  st_reads : nat
}.

Definition init_state : state :=
  {| st_trace := []; st_pos := 0; st_reads := 0%nat |}.

Definition emit (e : event) (st : state) : state :=
  {| st_trace := st_trace st ++ [e];
     st_pos := st_pos st;
     st_reads := st_reads st |}.

(** [lseek(fd, 0, SEEK_SET)] and [lseek(fd, 0, SEEK_END)] *)
Definition sys_lseek (contents : list byte) (w : whence) (st : state)
  : Z * state :=
  let pos := match w with
             | SEEK_SET => 0
             | SEEK_END => Z.of_nat (length contents)
             end in
  (pos, {| st_trace := st_trace st ++ [EvLseek 0 w];
           st_pos := pos;
           st_reads := st_reads st |}).

(** [read(fd, buf, count)]: the return value and the bytes delivered. *)
Definition sys_read (wd : world) (contents : list byte) (count : Z)
    (st : state) : Z * list byte * state :=
  let st' n := {| st_trace := st_trace st ++ [EvRead count];
                  st_pos := st_pos st + n;
                  st_reads := S (st_reads st) |} in
  if w_read_error wd (st_reads st) then (-1, [], st' 0)
  else
    let data := slice contents (Z.to_nat (st_pos st)) (Z.to_nat count) in
    let n := Z.of_nat (length data) in
    (n, data, st' n).

(** [g_malloc(size)]: NULL for a request of zero bytes. *)
Definition g_malloc (wd : world) (size : Z) (st : state) : Z * state :=
  (if size =? 0 then 0 else w_heap wd, emit (EvMalloc size) st).

(** The block [g_malloc] returns is not NULL, is 8-byte aligned, and does not
    lie in the topmost 128 KiB of the address space. *)
Definition heap_ok (base len : Z) : Prop :=
  0 < base /\ base mod 8 = 0 /\ base + len + 2 ^ 17 <= 2 ^ 64.

(** ** load_firmware *)

Definition load_firmware (fuel : nat) (wd : world) (contents : list byte)
    (fsize : Z) (h : fv_hdr) (st : state) : outcome Z * state :=
  let '(blob, st) := g_malloc wd fsize st in
  if blob =? 0 then (Ret EFI_INVALID_ENTRY_POINT, st)
  else
    let '(_, st) := sys_lseek contents SEEK_SET st in
    let '(n, data, st) := sys_read wd contents fsize st in
    if negb (n =? fsize) then
      (Ret EFI_INVALID_ENTRY_POINT, emit EvFree st)
    else
      match get_entry_point fuel (mk_blob blob data) h with
      | Ret entry =>
          let st := emit (EvRomAddBlobFixed "uefi" data fsize 0) st in
          (Ret entry, emit EvFree st)
      | OutOfBounds a => (OutOfBounds a, st)
      | OutOfFuel => (OutOfFuel, st)
      end.

(** ** efi_probe_firmware

    [file = None] is the NULL pointer. *)

Definition efi_probe_firmware (fuel : nat) (wd : world) (file : option string)
    (st : state) : outcome Z * state :=
  match file with
  | None => (Ret EFI_INVALID_ENTRY_POINT, st)
  | Some path =>
      let st := emit (EvOpen path) st in
      match w_open wd path with
      | None => (Ret EFI_INVALID_ENTRY_POINT, st)
      | Some contents =>
          let '(_, st) := sys_lseek contents SEEK_SET st in
          let '(n, buf, st) := sys_read wd contents (Z.of_nat fv.sizeof) st in
          if negb (n =? Z.of_nat fv.sizeof) then
            (Ret 0, emit EvClose st)
          else
            let h := decode_fv_hdr buf in
            if negb (fv_sign h =? le_val FV_SIGNATURE) then
              (Ret 0, emit EvClose st)
            else if negb (reset_vector_empty (reset_vector h)) then
              (Ret 0, emit EvClose st)
            else
              let '(fsize, st) := sys_lseek contents SEEK_END st in
              match load_firmware fuel wd contents fsize h st with
              | (Ret entry, st) => (Ret entry, emit EvClose st)
              | (o, st) => (o, st)
              end
      end
  end.

(** The ROM sink calls of a trace. *)
Definition is_rom (e : event) : bool :=
  match e with
  | EvRomAddBlobFixed _ _ _ _ => true
  | _ => false
  end.

Definition rom_calls (tr : list event) : list event := filter is_rom tr.

(** ** Traces and the header checks *)

(** What a probe that reaches the scan does, up to the whole-file read. *)
Definition load_trace (path : string) (contents : list byte) : list event :=
  [EvOpen path; EvLseek 0 SEEK_SET; EvRead (Z.of_nat fv.sizeof);
   EvLseek 0 SEEK_END; EvMalloc (Z.of_nat (length contents));
   EvLseek 0 SEEK_SET; EvRead (Z.of_nat (length contents))].

(** The call [rom_add_blob_fixed("uefi", blob, fsize, 0)]. *)
Definition rom_event (contents : list byte) : event :=
  EvRomAddBlobFixed "uefi" contents (Z.of_nat (length contents)) 0.

(** The file holds a whole [struct fv_hdr], with signature "_FVH" and an
    all-zero reset vector. *)
Definition header_accepted (contents : list byte) : Prop :=
  (fv.sizeof <= length contents)%nat
  /\ slice contents fv.sign 4 = FV_SIGNATURE
  /\ slice contents fv.reset_vector RESET_VECTOR_SIZE = zeros RESET_VECTOR_SIZE.

(** ** The image as the data model lays it out

    Offsets are counted from the start of the file.  [entry_size] is the
    packed 3-byte size of a file or section entry, masked to 12 bits;
    [round_up] is the alignment of the data model. *)

Definition img_len (img : list byte) : Z := Z.of_nat (length img).

Definition byte_at (img : list byte) (o : Z) : Z :=
  b2z (nth (Z.to_nat o) img x00).

Definition field (img : list byte) (o : Z) (n : nat) : Z :=
  le_val (slice img (Z.to_nat o) n).

Definition entry_size (img : list byte) (o : Z) : Z :=
  field img o 3 mod 2 ^ 12.

Definition round_up (k o : Z) : Z := (o + k - 1) / k * k.

Definition img_fv_len (img : list byte) : Z := field img (Z.of_nat fv.fv_len) 8.
Definition img_hdr_len (img : list byte) : Z :=
  field img (Z.of_nat fv.hdr_len) 2.

(** ** Well-formed volumes

    Entries are laid out one after the other, each at the next aligned
    offset after the end of the previous one.  [sects_reach img e o s]: the
    sections from offset [o] on, each lying below [e], are not TE sections
    until the one at offset [s], which is.  [files_reach] is the same for
    file entries and the Security-Core type. *)

Inductive sects_reach (img : list byte) (pay_end : Z) : Z -> Z -> Prop :=
| sects_reach_here (o : Z) :
    0 <= o -> o + sect.sizeof <= pay_end ->
    byte_at img (o + sect.type) = SECTION_TE ->
    sects_reach img pay_end o o
| sects_reach_skip (o s : Z) :
    0 <= o -> o + sect.sizeof <= pay_end ->
    byte_at img (o + sect.type) <> SECTION_TE ->
    sects_reach img pay_end
      (round_up 4 (o + entry_size img (o + sect.size))) s ->
    sects_reach img pay_end o s.

Inductive files_reach (img : list byte) (vol_end : Z) : Z -> Z -> Prop :=
| files_reach_here (o : Z) :
    0 <= o -> o + file.sizeof <= vol_end ->
    byte_at img (o + file.type) = SECURITY_CORE ->
    files_reach img vol_end o o
| files_reach_skip (o f : Z) :
    0 <= o -> o + file.sizeof <= vol_end ->
    byte_at img (o + file.type) <> SECURITY_CORE ->
    files_reach img vol_end
      (round_up 8 (o + entry_size img (o + file.size))) f ->
    files_reach img vol_end o f.

(** [img] starts with an accepted volume header; the volume lies inside the
    image; its file entries lead to a Security-Core file at offset [f] that
    ends inside the volume; the sections of that file lead to a TE section at
    offset [s] whose TE header lies inside the file and carries "VZ". *)
Record well_formed (img : list byte) (f s : Z) : Prop := mk_well_formed {
  wf_header : header_accepted img;
  wf_volume : img_fv_len img <= img_len img;
  wf_files :
    files_reach img (img_fv_len img) (round_up 8 (img_hdr_len img)) f;
  wf_file : f + entry_size img (f + file.size) <= img_fv_len img;
  wf_sects :
    sects_reach img (f + entry_size img (f + file.size))
      (round_up 4 (f + file.sizeof)) s;
  wf_te : s + sect.sizeof + te.sizeof <= f + entry_size img (f + file.size);
  wf_te_sign : slice img (Z.to_nat (s + sect.sizeof + te.sign)) 2 = TE_SIGNATURE
}.

(** The entry_point field of the TE header of the section at offset [s]. *)
Definition te_entry_point (img : list byte) (s : Z) : Z :=
  field img (s + sect.sizeof + te.entry_point) 4.


(** ** Building images

    Encoders for the four headers, byte-exact as in the structs above.
    They are used to write down concrete firmware images. *)

Definition enc_fv_hdr (rv sig : list byte) (len hlen : Z) : list byte :=
  rv ++ zeros 16 ++ le_bytes 8 len ++ sig ++ le_bytes 4 0 ++ le_bytes 2 hlen
     ++ zeros 6.

Definition enc_file_hdr (type size : Z) : list byte :=
  zeros 16 ++ le_bytes 2 0 ++ [z2b type; x00] ++ le_bytes 3 size ++ [x00].

Definition enc_sect_hdr (size type : Z) : list byte :=
  le_bytes 3 size ++ [z2b type].

Definition enc_te_hdr (sig : list byte) (entry : Z) : list byte :=
  sig ++ le_bytes 2 0 ++ [x00; x00] ++ le_bytes 2 0 ++ le_bytes 4 entry
      ++ le_bytes 4 0 ++ le_bytes 8 0 ++ zeros 8.

(** ** Volume descriptions and their encoding

    A description lists what a volume holds; [enc_volume] lays it out as
    the data model prescribes: a 56-byte header, then the files, each
    starting on an 8-byte boundary, sections starting on 4-byte boundaries,
    every size field holding the size of the entry including its header. *)

Record file_desc := mk_file_desc {
  fd_type : byte;
  fd_payload : list byte
}.

Record sect_desc := mk_sect_desc {
  sd_type : byte;
  sd_body : list byte
}.

(** The files before the Security-Core file, the sections of that file
    before its TE section, the TE header's entry point, the rest of the TE
    section, the rest of the file and the rest of the volume. *)
Record volume_desc := mk_volume_desc {
  vd_files : list file_desc;
  vd_sects : list sect_desc;
  vd_entry : Z;
  vd_code : list byte;
  vd_sects_after : list byte;
  vd_files_after : list byte
}.

Definition pad (k : Z) (bs : list byte) : list byte :=
  bs ++ zeros (Z.to_nat (round_up k (img_len bs) - img_len bs)).

Definition enc_file (f : file_desc) : list byte :=
  pad 8 (enc_file_hdr (b2z (fd_type f))
           (file.sizeof + img_len (fd_payload f)) ++ fd_payload f).

Definition enc_sect (s : sect_desc) : list byte :=
  pad 4 (enc_sect_hdr (sect.sizeof + img_len (sd_body s)) (b2z (sd_type s))
         ++ sd_body s).

Definition enc_te_sect (entry : Z) (code : list byte) : list byte :=
  enc_sect_hdr (sect.sizeof + te.sizeof + img_len code) SECTION_TE
  ++ enc_te_hdr TE_SIGNATURE entry ++ code.

Definition sec_payload (v : volume_desc) : list byte :=
  flat_map enc_sect (vd_sects v)
  ++ enc_te_sect (vd_entry v) (vd_code v) ++ vd_sects_after v.

Definition volume_body (v : volume_desc) : list byte :=
  flat_map enc_file (vd_files v)
  ++ enc_file_hdr SECURITY_CORE (file.sizeof + img_len (sec_payload v))
  ++ sec_payload v ++ vd_files_after v.

Definition enc_volume (v : volume_desc) : list byte :=
  enc_fv_hdr (zeros 16) FV_SIGNATURE
    (Z.of_nat fv.sizeof + img_len (volume_body v)) (Z.of_nat fv.sizeof)
  ++ volume_body v.

(** No file before the Security-Core file has its type, no section before
    the TE section has its type, every file up to and including the
    Security-Core file is shorter than 4096 bytes, so that its size survives
    the 12-bit mask, and the volume length fits its 8-byte field. *)
Definition volume_ok (v : volume_desc) : Prop :=
  Forall (fun f => b2z (fd_type f) <> SECURITY_CORE
                   /\ file.sizeof + img_len (fd_payload f) < 4096)
    (vd_files v)
  /\ Forall (fun s => b2z (sd_type s) <> SECTION_TE) (vd_sects v)
  /\ file.sizeof + img_len (sec_payload v) < 4096
  /\ Z.of_nat fv.sizeof + img_len (volume_body v) < 2 ^ 64.

(** Offsets of the Security-Core file and of its TE section. *)
Definition sec_offset (v : volume_desc) : Z :=
  Z.of_nat fv.sizeof + img_len (flat_map enc_file (vd_files v)).

Definition te_sect_offset (v : volume_desc) : Z :=
  sec_offset v + file.sizeof + img_len (flat_map enc_sect (vd_sects v)).

(** ** Concrete images *)

(** A volume with one Security-Core file holding one TE section, preceded
    by one file of type 0x02 holding 5 payload bytes. *)
Definition sample_image (entry : Z) : list byte :=
  enc_fv_hdr (zeros 16) FV_SIGNATURE 156 56
  ++ enc_file_hdr 0x02 29 ++ zeros 5 ++ zeros 3
  ++ enc_file_hdr SECURITY_CORE 68
  ++ enc_sect_hdr 6 0x19 ++ zeros 2 ++ zeros 2
  ++ enc_sect_hdr 36 SECTION_TE ++ enc_te_hdr TE_SIGNATURE entry.

(** The description of which [sample_image] is the encoding. *)
Definition sample_desc (entry : Z) : volume_desc :=
  {| vd_files := [mk_file_desc x02 (zeros 5)];
     vd_sects := [mk_sect_desc x19 (zeros 2)];
     vd_entry := entry;
     vd_code := [];
     vd_sects_after := [];
     vd_files_after := [] |}.

(** [open] succeeds on "fw.fd" only, no [read] fails, and [g_malloc]
    returns 0x7f0000001000. *)
Definition sample_world (img : list byte) : world :=
  {| w_open := fun p => if String.eqb p "fw.fd" then Some img else None;
     w_read_error := fun _ => false;
     w_heap := 0x7f0000001000 |}.

(** A header whose signature reads "_FVX". *)
Definition bad_sign_image : list byte :=
  enc_fv_hdr (zeros 16) [x5f; x46; x56; x58] 56 56.

(** A header with a jump instruction in its reset vector. *)
Definition reset_code_image : list byte :=
  enc_fv_hdr ([xea] ++ zeros 15) FV_SIGNATURE 56 56.

(** Ten bytes: shorter than [struct fv_hdr]. *)
Definition truncated_image : list byte := firstn 10 (sample_image 0).


(** A volume of 88 bytes that is the whole file: header and one file of
    type 0x02. *)
Definition single_volume_image : list byte :=
  enc_fv_hdr (zeros 16) FV_SIGNATURE 88 56
  ++ enc_file_hdr 0x02 32 ++ zeros 8.

(** A volume whose only file has type 0x02 and is 4096 bytes long: its size
    field holds 0x001000. *)
Definition file_4096_image : list byte :=
  enc_fv_hdr (zeros 16) FV_SIGNATURE 4152 56
  ++ enc_file_hdr 0x02 0x001000 ++ zeros 4072.

(** A Security-Core file of 28 bytes (header and one 4-byte section of type
    0x19), four bytes up to the next 8-byte boundary, then a file of type
    0x02 whose GUID starts with "VZ" and holds EF BE AD DE at bytes 8..11. *)
Definition overrun_image : list byte :=
  enc_fv_hdr (zeros 16) FV_SIGNATURE 112 56
  ++ enc_file_hdr SECURITY_CORE 28 ++ enc_sect_hdr 4 0x19
  ++ [x24; x00; x00; x12]
  ++ (TE_SIGNATURE ++ zeros 6 ++ le_bytes 4 0xDEADBEEF ++ zeros 4
      ++ le_bytes 2 0 ++ [x02; x00] ++ le_bytes 3 24 ++ [x00]).

(** A volume whose only file is a Security-Core file of 4120 bytes holding
    one section of type 0x19 that is 4096 bytes long. *)
Definition section_4096_image : list byte :=
  enc_fv_hdr (zeros 16) FV_SIGNATURE 4176 56
  ++ enc_file_hdr SECURITY_CORE 0x001018
  ++ enc_sect_hdr 0x001000 0x19 ++ zeros 4092.


(** ** Counting events *)

Definition is_close (e : event) : bool :=
  match e with EvClose => true | _ => false end.

Definition is_free (e : event) : bool :=
  match e with EvFree => true | _ => false end.

Definition is_malloc (e : event) : bool :=
  match e with EvMalloc _ => true | _ => false end.

Definition is_open (e : event) : bool :=
  match e with EvOpen _ => true | _ => false end.

Definition count (p : event -> bool) (tr : list event) : nat :=
  length (filter p tr).

(** The events of a probe up to the header read. *)
Definition header_trace (path : string) : list event :=
  [EvOpen path; EvLseek 0 SEEK_SET; EvRead (Z.of_nat fv.sizeof)].


(** [sects_exhausted img e o]: the sections from offset [o] on, each with
    its header inside the image, are not TE sections, and the walk leaves the
    scanned range, which ends at offset [e]. *)
Inductive sects_exhausted (img : list byte) (scan_end : Z) : Z -> Prop :=
| sects_exhausted_done (o : Z) :
    scan_end <= o -> sects_exhausted img scan_end o
| sects_exhausted_skip (o : Z) :
    0 <= o -> o < scan_end -> o + sect.sizeof <= img_len img ->
    byte_at img (o + sect.type) <> SECTION_TE ->
    sects_exhausted img scan_end
      (round_up 4 (o + entry_size img (o + sect.size))) ->
    sects_exhausted img scan_end o.

(** The sample image with "VX" in place of the TE signature. *)
Definition bad_te_image : list byte :=
  enc_fv_hdr (zeros 16) FV_SIGNATURE 156 56
  ++ enc_file_hdr 0x02 29 ++ zeros 5 ++ zeros 3
  ++ enc_file_hdr SECURITY_CORE 68
  ++ enc_sect_hdr 6 0x19 ++ zeros 2 ++ zeros 2
  ++ enc_sect_hdr 36 SECTION_TE ++ enc_te_hdr [x56; x58] 0x12345678.

(** The start of a file with two Security-Core files: the volume header,
    a first Security-Core file of 32 bytes that holds one section of type
    0x19, and the 24-byte header of a pad file (type 0xF0) whose GUID is all
    0xFF. *)
Definition later_sec_prefix : list byte :=
  enc_fv_hdr (zeros 16) FV_SIGNATURE 172 56
  ++ enc_file_hdr SECURITY_CORE 32 ++ enc_sect_hdr 8 0x19 ++ zeros 4
  ++ (repeat xff 16 ++ le_bytes 2 0 ++ [xf0; x00] ++ le_bytes 3 24 ++ [x00]).

(** The rest of that file: a second Security-Core file, which holds a TE
    section with signature "VZ" and entry point 0x1000. *)
Definition later_sec_tail : list byte :=
  enc_file_hdr SECURITY_CORE 60
  ++ enc_sect_hdr 36 SECTION_TE ++ enc_te_hdr TE_SIGNATURE 0x1000.

(** A volume header followed by 32 bytes of erased flash (0xFF). *)
Definition erased_image : list byte :=
  enc_fv_hdr (zeros 16) FV_SIGNATURE 88 56 ++ repeat xff 32.

(** [files_walk img o e]: the file entries from offset [o] on, each with its
    header inside the image and none of them a Security-Core file, lead to
    offset [e]. *)
Inductive files_walk (img : list byte) : Z -> Z -> Prop :=
| files_walk_here (o : Z) : files_walk img o o
| files_walk_skip (o e : Z) :
    0 <= o -> o + file.sizeof <= img_len img ->
    byte_at img (o + file.type) <> SECURITY_CORE ->
    files_walk img (round_up 8 (o + entry_size img (o + file.size))) e ->
    files_walk img o e.

(** * Properties *)

Ltac closed := vm_compute; first [reflexivity | discriminate | lia].

(** ** Bytes and little-endian values *)

Lemma b2z_range (b : byte) : 0 <= b2z b < 256.
Proof.
  unfold b2z. pose proof (Byte.to_N_bounded b). lia.
Qed.

Lemma b2z_inj (a b : byte) : b2z a = b2z b -> a = b.
Proof.
  unfold b2z. intros H. apply N2Z.inj in H.
  pose proof (Byte.of_to_N a) as Ha. rewrite H, Byte.of_to_N in Ha.
  congruence.
Qed.

Lemma b2z_eqb_zero (b : byte) : (b2z b =? 0) = true <-> b = x00.
Proof.
  rewrite Z.eqb_eq. split.
  - intros H. apply b2z_inj. exact H.
  - intros ->. reflexivity.
Qed.

Lemma b2z_z2b (z : Z) : b2z (z2b z) = z mod 256.
Proof.
  unfold z2b, b2z.
  pose proof (Z.mod_pos_bound z 256 ltac:(lia)) as Hr.
  destruct (Byte.of_N (Z.to_N (z mod 256))) as [b|] eqn:E.
  - apply Byte.to_of_N in E. rewrite E. lia.
  - apply Byte.of_N_None_iff in E. lia.
Qed.

Lemma le_val_range (bs : list byte) :
  0 <= le_val bs < 256 ^ Z.of_nat (length bs).
Proof.
  induction bs as [|b tl IH]; cbn [le_val length].
  - simpl. lia.
  - rewrite Nat2Z.inj_succ, Z.pow_succ_r by lia.
    pose proof (b2z_range b). lia.
Qed.

Lemma le_val_inj (xs ys : list byte) :
  length xs = length ys -> le_val xs = le_val ys -> xs = ys.
Proof.
  revert ys. induction xs as [|x xs IH]; intros [|y ys] Hl Hv;
    try discriminate; [reflexivity|].
  cbn [le_val length] in *.
  pose proof (b2z_range x). pose proof (b2z_range y).
  assert (b2z x = b2z y /\ le_val xs = le_val ys) as [Hb Ht] by lia.
  f_equal; [apply b2z_inj; exact Hb | apply IH; [lia | exact Ht]].
Qed.

Lemma slice_length (bs : list byte) (off n : nat) :
  (off + n <= length bs)%nat -> length (slice bs off n) = n.
Proof.
  intros H. unfold slice. rewrite length_firstn, length_skipn. lia.
Qed.

Lemma slice_firstn (bs : list byte) (k off n : nat) :
  (off + n <= k)%nat -> slice (firstn k bs) off n = slice bs off n.
Proof.
  intros H. unfold slice.
  rewrite skipn_firstn_comm, firstn_firstn.
  f_equal. lia.
Qed.

Lemma slice_all (bs : list byte) : slice bs 0 (length bs) = bs.
Proof. unfold slice. cbn [skipn]. apply firstn_all. Qed.

(** ** The reset-vector test *)

Lemma reset_vector_scan_le (buf : list byte) (n i : nat) :
  (reset_vector_scan buf i n <= i + n)%nat.
Proof.
  revert i. induction n as [|n IH]; intros i; cbn [reset_vector_scan].
  - lia.
  - destruct (b2z (nth i buf x00) =? 0); [specialize (IH (S i))|]; lia.
Qed.

Lemma reset_vector_scan_all (buf : list byte) (n i : nat) :
  reset_vector_scan buf i n = (i + n)%nat <->
  (forall j, (i <= j < i + n)%nat -> nth j buf x00 = x00).
Proof.
  revert i. induction n as [|n IH]; intros i; cbn [reset_vector_scan].
  - split; [intros _ j Hj; lia | intros _; lia].
  - destruct (b2z (nth i buf x00) =? 0) eqn:E.
    + apply b2z_eqb_zero in E.
      replace (i + S n)%nat with (S i + n)%nat by lia.
      rewrite IH. split; intros H j Hj.
      * destruct (Nat.eq_dec j i) as [->|Hne]; [exact E | apply H; lia].
      * apply H. lia.
    + split; [intros H; lia|].
      intros H. specialize (H i ltac:(lia)).
      apply b2z_eqb_zero in H. congruence.
Qed.

Lemma reset_vector_empty_zeros (rv : list byte) :
  length rv = RESET_VECTOR_SIZE ->
  reset_vector_empty rv = true <-> rv = zeros RESET_VECTOR_SIZE.
Proof.
  intros Hl. unfold reset_vector_empty.
  rewrite Nat.eqb_eq.
  change RESET_VECTOR_SIZE with (0 + RESET_VECTOR_SIZE)%nat at 1 2.
  rewrite reset_vector_scan_all. split.
  - intros H. apply (nth_ext _ _ x00 x00).
    + unfold zeros. rewrite repeat_length. exact Hl.
    + intros j Hj. rewrite H by lia.
      unfold zeros. rewrite nth_repeat. reflexivity.
  - intros -> j _. unfold zeros. apply nth_repeat.
Qed.

(** ** get_size *)

Lemma lor_shiftl_add (a b n : Z) :
  0 <= n -> 0 <= a < 2 ^ n -> Z.lor a (Z.shiftl b n) = a + b * 2 ^ n.
Proof.
  intros Hn Ha.
  rewrite <- Z.add_lor_land, <- Z.shiftl_mul_pow2 by lia.
  assert (Z.land a (Z.shiftl b n) = 0) as ->; [|lia].
  apply Z.bits_inj'. intros i Hi.
  rewrite Z.land_spec, Z.bits_0.
  destruct (Z.lt_ge_cases i n) as [Hlt|Hge].
  - rewrite Z.shiftl_spec_low by lia. apply andb_false_r.
  - rewrite <- (Z.mod_small a (2 ^ n)) by lia.
    rewrite Z.mod_pow2_bits_high by lia. reflexivity.
Qed.

(** On bytes, the decoder is the 24-bit little-endian value reduced modulo
    4096. *)
Lemma get_size_mod (s0 s1 s2 : Z) :
  0 <= s0 < 256 -> 0 <= s1 < 256 -> 0 <= s2 < 256 ->
  get_size s0 s1 s2 = (s0 + 256 * s1 + 65536 * s2) mod 4096.
Proof.
  intros H0 H1 H2. unfold get_size, wrap32.
  rewrite (lor_shiftl_add s0 s1 8) by lia.
  change (2 ^ 8) with 256.
  rewrite (lor_shiftl_add (s0 + s1 * 256) s2 16) by lia.
  change (2 ^ 16) with 65536. change (2 ^ 32) with 4294967296.
  rewrite (Z.mod_small _ 4294967296) by lia.
  change 0x0fff with (Z.ones 12). rewrite Z.land_ones by lia.
  change (2 ^ 12) with 4096. f_equal. lia.
Qed.

Lemma get_size_low (s0 s1 s2 : Z) :
  0 <= s0 < 256 -> 0 <= s1 < 256 -> 0 <= s2 < 256 ->
  get_size s0 s1 s2 = s0 + 256 * (s1 mod 16).
Proof.
  intros H0 H1 H2. rewrite get_size_mod by assumption.
  pose proof (Z.div_mod s1 16 ltac:(lia)) as Hd.
  pose proof (Z.mod_pos_bound s1 16 ltac:(lia)) as Hm.
  symmetry. apply (Z.mod_unique_pos _ _ (s1 / 16 + 16 * s2)); lia.
Qed.

Lemma get_size_range (s0 s1 s2 : Z) : 0 <= get_size s0 s1 s2 < 4096.
Proof.
  unfold get_size. change 0x0fff with (Z.ones 12).
  rewrite Z.land_ones by lia. apply Z.mod_pos_bound. lia.
Qed.

(** ** align4_ptr and align8_ptr *)

Lemma land_lnot_low (x k : Z) :
  0 <= k < 64 -> 0 <= x < 2 ^ 64 ->
  Z.land x (wrap64 (Z.lnot (2 ^ k - 1))) = x - x mod 2 ^ k.
Proof.
  intros Hk Hx. unfold wrap64.
  rewrite <- (Z.land_ones (Z.lnot _)) by lia.
  rewrite (Z.land_comm (Z.lnot _)), Z.land_assoc.
  rewrite (Z.land_ones x) by lia. rewrite (Z.mod_small x) by lia.
  rewrite <- Z.sub_land_same_l. f_equal.
  change (2 ^ k - 1) with (Z.pred (2 ^ k)). rewrite <- Z.ones_equiv.
  apply Z.land_ones. lia.
Qed.

Lemma align4_ptr_eq (p : Z) :
  align4_ptr p = wrap64 (p + 3) - wrap64 (p + 3) mod 4.
Proof.
  unfold align4_ptr.
  apply (land_lnot_low (wrap64 (p + 3)) 2); [lia|].
  apply Z.mod_pos_bound. lia.
Qed.

Lemma align8_ptr_eq (p : Z) :
  align8_ptr p = wrap64 (p + 7) - wrap64 (p + 7) mod 8.
Proof.
  unfold align8_ptr.
  apply (land_lnot_low (wrap64 (p + 7)) 3); [lia|].
  apply Z.mod_pos_bound. lia.
Qed.

Lemma wrap64_small (z : Z) : 0 <= z < 2 ^ 64 -> wrap64 z = z.
Proof. intros H. unfold wrap64. apply Z.mod_small. exact H. Qed.

(** Aligning rounds up to the next multiple, by less than the alignment. *)
Lemma align4_ptr_spec (p : Z) :
  0 <= p -> p + 3 < 2 ^ 64 ->
  p <= align4_ptr p < p + 4 /\ align4_ptr p mod 4 = 0.
Proof.
  intros H0 H1. rewrite align4_ptr_eq, wrap64_small by lia.
  pose proof (Z.mod_pos_bound (p + 3) 4 ltac:(lia)).
  pose proof (Z.div_mod (p + 3) 4 ltac:(lia)).
  split; [lia|].
  replace (p + 3 - (p + 3) mod 4) with ((p + 3) / 4 * 4) by lia.
  apply Z.mod_mul. lia.
Qed.

Lemma align8_ptr_spec (p : Z) :
  0 <= p -> p + 7 < 2 ^ 64 ->
  p <= align8_ptr p < p + 8 /\ align8_ptr p mod 8 = 0.
Proof.
  intros H0 H1. rewrite align8_ptr_eq, wrap64_small by lia.
  pose proof (Z.mod_pos_bound (p + 7) 8 ltac:(lia)).
  pose proof (Z.div_mod (p + 7) 8 ltac:(lia)).
  split; [lia|].
  replace (p + 7 - (p + 7) mod 8) with ((p + 7) / 8 * 8) by lia.
  apply Z.mod_mul. lia.
Qed.

Lemma align4_ptr_aligned (p : Z) :
  0 <= p -> p + 3 < 2 ^ 64 -> p mod 4 = 0 -> align4_ptr p = p.
Proof.
  intros H0 H1 Hm. rewrite align4_ptr_eq, wrap64_small by lia.
  pose proof (Z.div_mod p 4 ltac:(lia)).
  assert ((p + 3) mod 4 = 3); [|lia].
  symmetry. apply (Z.mod_unique_pos _ _ (p / 4)); lia.
Qed.

Lemma align8_ptr_aligned (p : Z) :
  0 <= p -> p + 7 < 2 ^ 64 -> p mod 8 = 0 -> align8_ptr p = p.
Proof.
  intros H0 H1 Hm. rewrite align8_ptr_eq, wrap64_small by lia.
  pose proof (Z.div_mod p 8 ltac:(lia)).
  assert ((p + 7) mod 8 = 7); [|lia].
  symmetry. apply (Z.mod_unique_pos _ _ (p / 8)); lia.
Qed.

(** ** The size decoder *)

(** Claim C8.  For every 3-byte packed size field [b0, b1, b2] the decoder
    returns [b0 | b1 << 8 | b2 << 16] masked with 0x0FFF: the result is the
    24-bit little-endian value modulo 4096, it lies below 4096, [b2] and the
    high four bits of [b1] do not contribute, and the field encoding
    0x001234 decodes to 0x234, not to 0x1234. *)
Theorem get_size_keeps_low_12_bits (b0 b1 b2 : byte) :
  get_size (b2z b0) (b2z b1) (b2z b2)
    = Z.land (Z.lor (Z.lor (b2z b0) (Z.shiftl (b2z b1) 8))
                    (Z.shiftl (b2z b2) 16)) 0x0FFF
  /\ get_size (b2z b0) (b2z b1) (b2z b2) = le_val [b0; b1; b2] mod 2 ^ 12
  /\ get_size (b2z b0) (b2z b1) (b2z b2) = b2z b0 + 256 * (b2z b1 mod 16)
  /\ 0 <= get_size (b2z b0) (b2z b1) (b2z b2) < 2 ^ 12
  /\ le_val [x34; x12; x00] = 0x001234
  /\ get_size (b2z x34) (b2z x12) (b2z x00) = 0x234
  /\ get_size (b2z x34) (b2z x12) (b2z x00) <> 0x1234.
Proof.
  pose proof (b2z_range b0) as H0.
  pose proof (b2z_range b1) as H1.
  pose proof (b2z_range b2) as H2.
  repeat split.
  - unfold get_size, wrap32. f_equal.
    rewrite (lor_shiftl_add (b2z b0) (b2z b1) 8) by lia.
    change (2 ^ 8) with 256.
    rewrite (lor_shiftl_add (b2z b0 + b2z b1 * 256) (b2z b2) 16) by lia.
    change (2 ^ 16) with 65536. change (2 ^ 32) with 4294967296.
    apply Z.mod_small. lia.
  - rewrite get_size_mod by assumption. cbn [le_val].
    change (2 ^ 12) with 4096. f_equal. lia.
  - apply get_size_low; assumption.
  - apply get_size_range.
  - apply get_size_range.
  - vm_compute. discriminate.
Qed.

(** ** Paths that end before the blob is loaded *)

(** Claim C9.  Called with a NULL path, the probe returns the sentinel
    0xFFFFFFFF at once: the state is unchanged, so nothing is opened or read
    and the ROM sink is not invoked. *)
Theorem null_path_returns_sentinel (fuel : nat) (wd : world) (st : state) :
  efi_probe_firmware fuel wd None st = (Ret 0xFFFFFFFF, st)
  /\ rom_calls (st_trace (snd (efi_probe_firmware fuel wd None st)))
     = rom_calls (st_trace st).
Proof.
  split; reflexivity.
Qed.

Lemma rom_calls_app (t1 t2 : list event) :
  rom_calls (t1 ++ t2) = rom_calls t1 ++ rom_calls t2.
Proof. apply filter_app. Qed.

(** The first [read] delivers the whole header exactly when it does not
    fail and the file holds at least [sizeof(struct fv_hdr)] bytes. *)
Lemma header_read_ok (wd : world) (contents : list byte) (st : state) :
  st_pos st = 0 ->
  w_read_error wd (st_reads st) = false ->
  (fv.sizeof <= length contents)%nat ->
  sys_read wd contents (Z.of_nat fv.sizeof) st
  = (Z.of_nat fv.sizeof, firstn fv.sizeof contents,
     {| st_trace := st_trace st ++ [EvRead (Z.of_nat fv.sizeof)];
        st_pos := Z.of_nat fv.sizeof;
        st_reads := S (st_reads st) |}).
Proof.
  intros Hp He Hl. unfold sys_read. rewrite He, Hp.
  rewrite Nat2Z.id. unfold slice. cbn [Z.to_nat skipn].
  rewrite length_firstn, Nat.min_l by exact Hl. reflexivity.
Qed.

Lemma header_read_short (wd : world) (contents : list byte) (st : state) :
  st_pos st = 0 ->
  w_read_error wd (st_reads st) = true \/ (length contents < fv.sizeof)%nat ->
  exists n data st',
    sys_read wd contents (Z.of_nat fv.sizeof) st = (n, data, st')
    /\ st_trace st' = st_trace st ++ [EvRead (Z.of_nat fv.sizeof)]
    /\ n <> Z.of_nat fv.sizeof.
Proof.
  intros Hp H. unfold sys_read.
  destruct (w_read_error wd (st_reads st)) eqn:He.
  - exists (-1), []. eexists. split; [reflexivity|].
    split; [reflexivity | lia].
  - destruct H as [H|H]; [discriminate|].
    eexists _, _, _. split; [reflexivity|].
    split; [reflexivity|].
    rewrite Hp, Nat2Z.id. unfold slice. cbn [Z.to_nat skipn].
    rewrite length_firstn. lia.
Qed.

(** A short or failed header read makes the probe return 0 and close the
    descriptor. *)
Lemma short_header_read_result (fuel : nat) (wd : world) (path : string)
    (contents : list byte) (st : state) :
  w_open wd path = Some contents ->
  w_read_error wd (st_reads st) = true \/ (length contents < fv.sizeof)%nat ->
  exists st',
    efi_probe_firmware fuel wd (Some path) st = (Ret 0, st')
    /\ st_trace st' = st_trace st ++
         [EvOpen path; EvLseek 0 SEEK_SET; EvRead (Z.of_nat fv.sizeof);
          EvClose].
Proof.
  intros Ho H. unfold efi_probe_firmware. rewrite Ho.
  cbn [sys_lseek emit st_trace st_pos st_reads].
  match goal with
  | |- context [sys_read wd contents ?n ?s] =>
      destruct (header_read_short wd contents s eq_refl H)
        as (n' & data & s' & -> & Ht & Hn)
  end.
  apply Z.eqb_neq in Hn. rewrite Hn. cbn [negb].
  eexists. split; [reflexivity|].
  cbn [emit st_trace]. rewrite Ht. cbn [st_trace].
  rewrite <- !app_assoc. reflexivity.
Qed.

(** Claim C4.  When the volume header is read in full but its signature
    bytes differ from "_FVH", or its 16-byte reset vector is not all zero,
    the probe returns exactly 0, which is not the sentinel; it only opens,
    seeks, reads the header and closes, so nothing is loaded or parsed and
    the ROM sink is not invoked. *)
Theorem rejected_volume_header_returns_zero (fuel : nat) (wd : world)
    (path : string) (contents : list byte) (st : state) :
  w_open wd path = Some contents ->
  w_read_error wd (st_reads st) = false ->
  (fv.sizeof <= length contents)%nat ->
  slice contents fv.sign 4 <> FV_SIGNATURE
  \/ (slice contents fv.sign 4 = FV_SIGNATURE
      /\ slice contents fv.reset_vector RESET_VECTOR_SIZE
         <> zeros RESET_VECTOR_SIZE) ->
  exists st',
    efi_probe_firmware fuel wd (Some path) st = (Ret 0, st')
    /\ 0 <> EFI_INVALID_ENTRY_POINT
    /\ st_trace st' = st_trace st ++
         [EvOpen path; EvLseek 0 SEEK_SET; EvRead (Z.of_nat fv.sizeof);
          EvClose]
    /\ rom_calls (st_trace st') = rom_calls (st_trace st).
Proof.
  intros Ho He Hl Hbad. unfold efi_probe_firmware. rewrite Ho.
  cbn [sys_lseek emit st_trace st_pos st_reads].
  rewrite header_read_ok by (try reflexivity; assumption).
  rewrite Z.eqb_refl. cbn [negb].
  assert (Hdone : forall s o,
    o = (Ret 0, emit EvClose s) ->
    st_trace s = (st_trace st ++ [EvOpen path]) ++ [EvLseek 0 SEEK_SET]
                   ++ [EvRead (Z.of_nat fv.sizeof)] ->
    exists st', o = (@Ret Z 0, st')
      /\ 0 <> EFI_INVALID_ENTRY_POINT
      /\ st_trace st' = st_trace st ++
           [EvOpen path; EvLseek 0 SEEK_SET; EvRead (Z.of_nat fv.sizeof);
            EvClose]
      /\ rom_calls (st_trace st') = rom_calls (st_trace st)).
  { intros s o -> Hs. eexists. split; [reflexivity|].
    split; [discriminate|].
    cbn [emit st_trace]. rewrite Hs. split.
    - rewrite <- !app_assoc. reflexivity.
    - rewrite !rom_calls_app. cbn. rewrite !app_nil_r. reflexivity. }
  destruct (fv_sign (decode_fv_hdr (firstn fv.sizeof contents))
              =? le_val FV_SIGNATURE) eqn:Es; cbn [negb].
  - destruct (reset_vector_empty
                (reset_vector (decode_fv_hdr (firstn fv.sizeof contents))))
      eqn:Er; cbn [negb].
    + exfalso.
      apply Z.eqb_eq in Es. cbn [decode_fv_hdr fv_sign reset_vector] in Es, Er.
      rewrite slice_firstn in Es, Er by (vm_compute; lia).
      apply le_val_inj in Es;
        [|rewrite slice_length by (unfold fv.sizeof, fv.sign in *; lia);
          reflexivity].
      apply reset_vector_empty_zeros in Er;
        [|apply slice_length;
          unfold fv.sizeof, fv.reset_vector, RESET_VECTOR_SIZE in *; lia].
      destruct Hbad as [Hs|[_ Hr]]; [apply Hs; exact Es | apply Hr; exact Er].
    + eapply Hdone; [reflexivity|]. cbn [st_trace].
      rewrite <- !app_assoc. reflexivity.
  - eapply Hdone; [reflexivity|]. cbn [st_trace].
    rewrite <- !app_assoc. reflexivity.
Qed.

Lemma rejected_volume_header_returns_zero_witness :
  (exists st',
     efi_probe_firmware 0 (sample_world bad_sign_image)
       (Some "fw.fd"%string) init_state = (Ret 0, st')
     /\ 0 <> EFI_INVALID_ENTRY_POINT
     /\ st_trace st' = st_trace init_state ++
          [EvOpen "fw.fd"; EvLseek 0 SEEK_SET; EvRead (Z.of_nat fv.sizeof);
           EvClose]
     /\ rom_calls (st_trace st') = rom_calls (st_trace init_state))
  /\ (exists st',
     efi_probe_firmware 0 (sample_world reset_code_image)
       (Some "fw.fd"%string) init_state = (Ret 0, st')
     /\ 0 <> EFI_INVALID_ENTRY_POINT
     /\ st_trace st' = st_trace init_state ++
          [EvOpen "fw.fd"; EvLseek 0 SEEK_SET; EvRead (Z.of_nat fv.sizeof);
           EvClose]
     /\ rom_calls (st_trace st') = rom_calls (st_trace init_state)).
Proof.
  split.
  - apply (rejected_volume_header_returns_zero 0 (sample_world bad_sign_image)
             "fw.fd" bad_sign_image init_state).
    + reflexivity.
    + reflexivity.
    + vm_compute. lia.
    + left. vm_compute. discriminate.
  - apply (rejected_volume_header_returns_zero 0
             (sample_world reset_code_image)
             "fw.fd" reset_code_image init_state).
    + reflexivity.
    + reflexivity.
    + vm_compute. lia.
    + right. split; [reflexivity | vm_compute; discriminate].
Defined.

(** ** Short header read *)

(** Claim C2 (the code departs from it).  When [open] succeeds and the
    header read fails or falls short, the probe returns 0 and closes the
    descriptor; 0 is not the sentinel 0xFFFFFFFF that a failed [open]
    yields. *)
Theorem short_header_read_returns_zero (fuel : nat) (wd : world)
    (path : string) (contents : list byte) (st : state) :
  w_open wd path = Some contents ->
  w_read_error wd (st_reads st) = true \/ (length contents < fv.sizeof)%nat ->
  fst (efi_probe_firmware fuel wd (Some path) st) = Ret 0
  /\ Ret 0 <> Ret EFI_INVALID_ENTRY_POINT
  /\ (forall wd', w_open wd' path = None ->
        fst (efi_probe_firmware fuel wd' (Some path) st)
        = Ret EFI_INVALID_ENTRY_POINT).
Proof.
  intros Ho H.
  destruct (short_header_read_result fuel wd path contents st Ho H)
    as (st' & -> & _).
  split; [reflexivity|]. split; [discriminate|].
  intros wd' Hn. unfold efi_probe_firmware. rewrite Hn. reflexivity.
Qed.

Lemma short_header_read_returns_zero_witness :
  fst (efi_probe_firmware 0 (sample_world truncated_image)
         (Some "fw.fd"%string) init_state) = Ret 0
  /\ Ret 0 <> Ret EFI_INVALID_ENTRY_POINT
  /\ (forall wd', w_open wd' "fw.fd"%string = None ->
        fst (efi_probe_firmware 0 wd' (Some "fw.fd"%string) init_state)
        = Ret EFI_INVALID_ENTRY_POINT).
Proof.
  apply (short_header_read_returns_zero 0 (sample_world truncated_image)
           "fw.fd" truncated_image init_state).
  - reflexivity.
  - right. vm_compute. lia.
Defined.

(** ** From the probe to the scan

    When the header passes both checks the probe loads the whole file and
    its result is that of [get_entry_point] on the loaded blob. *)

Lemma probe_reaches_scan (fuel : nat) (wd : world) (path : string)
    (contents : list byte) (st : state) :
  w_open wd path = Some contents ->
  w_read_error wd (st_reads st) = false ->
  w_read_error wd (S (st_reads st)) = false ->
  w_heap wd <> 0 ->
  header_accepted contents ->
  exists st1,
    st_trace st1 = st_trace st ++ load_trace path contents
    /\ efi_probe_firmware fuel wd (Some path) st
       = match get_entry_point fuel (mk_blob (w_heap wd) contents)
                 (decode_fv_hdr (firstn fv.sizeof contents)) with
         | Ret entry =>
             (Ret entry,
              emit EvClose (emit EvFree (emit (rom_event contents) st1)))
         | OutOfBounds a => (OutOfBounds a, st1)
         | OutOfFuel => (OutOfFuel, st1)
         end.
Proof.
  intros Ho He1 He2 Hheap (Hl & Hs & Hr).
  unfold efi_probe_firmware. rewrite Ho.
  cbn [sys_lseek emit st_trace st_pos st_reads].
  rewrite header_read_ok by (try reflexivity; assumption).
  rewrite Z.eqb_refl. cbn [negb].
  cbn [decode_fv_hdr fv_sign reset_vector].
  rewrite !slice_firstn by (vm_compute; lia).
  rewrite Hs, Z.eqb_refl. cbn [negb].
  rewrite Hr.
  replace (reset_vector_empty (zeros RESET_VECTOR_SIZE)) with true
    by reflexivity.
  cbn [negb]. unfold load_firmware, g_malloc.
  assert (Hnz : (Z.of_nat (length contents) =? 0) = false).
  { apply Z.eqb_neq. unfold fv.sizeof in Hl. lia. }
  rewrite Hnz. apply Z.eqb_neq in Hheap. rewrite Hheap.
  cbn [sys_lseek emit st_trace st_pos st_reads].
  unfold sys_read. cbn [st_reads st_pos st_trace]. rewrite He2.
  rewrite Nat2Z.id. cbn [Z.to_nat].
  rewrite !slice_all, Z.eqb_refl. cbn [negb].
  eexists {| st_trace := st_trace st ++ load_trace path contents;
             st_pos := _; st_reads := _ |}.
  split; [reflexivity|].
  unfold load_trace, rom_event.
  replace (((((((st_trace st ++ [EvOpen path]) ++ [EvLseek 0 SEEK_SET])
              ++ [EvRead (Z.of_nat fv.sizeof)]) ++ [EvLseek 0 SEEK_END])
            ++ [EvMalloc (Z.of_nat (length contents))])
           ++ [EvLseek 0 SEEK_SET])
          ++ [EvRead (Z.of_nat (length contents))])
    with (st_trace st ++
          [EvOpen path; EvLseek 0 SEEK_SET; EvRead (Z.of_nat fv.sizeof);
           EvLseek 0 SEEK_END; EvMalloc (Z.of_nat (length contents));
           EvLseek 0 SEEK_SET; EvRead (Z.of_nat (length contents))])
    by (rewrite <- !app_assoc; reflexivity).
  destruct (get_entry_point _ _ _); reflexivity.
Qed.

Lemma sample_world_scan (img : list byte) (fuel : nat) :
  header_accepted img ->
  fst (efi_probe_firmware fuel (sample_world img) (Some "fw.fd"%string)
         init_state)
  = get_entry_point fuel (mk_blob (w_heap (sample_world img)) img)
      (decode_fv_hdr (firstn fv.sizeof img)).
Proof.
  intros Hh.
  destruct (probe_reaches_scan fuel (sample_world img) "fw.fd" img init_state)
    as (st1 & _ & ->); try reflexivity; try exact Hh.
  - cbn. discriminate.
  - destruct (get_entry_point _ _ _); reflexivity.
Qed.

(** ** Fields of the image *)

Lemma slice_S (bs : list byte) (off n : nat) :
  (off < length bs)%nat ->
  slice bs off (S n) = nth off bs x00 :: slice bs (S off) n.
Proof.
  unfold slice. revert off. induction bs as [|b tl IH]; intros off H.
  - cbn [length] in H. lia.
  - destruct off as [|off]; [reflexivity|].
    cbn [length] in H. cbn [skipn nth]. rewrite IH by lia. reflexivity.
Qed.

Lemma field_S (img : list byte) (o : Z) (n : nat) :
  0 <= o < img_len img ->
  field img o (S n) = byte_at img o + 256 * field img (o + 1) n.
Proof.
  intros H. unfold field, byte_at, img_len in *.
  rewrite slice_S by lia. cbn [le_val].
  replace (Z.to_nat (o + 1)) with (S (Z.to_nat o)) by lia. reflexivity.
Qed.

Lemma field_0 (img : list byte) (o : Z) : field img o 0 = 0.
Proof. reflexivity. Qed.

Lemma field_range (img : list byte) (o : Z) (n : nat) :
  0 <= field img o n < 256 ^ Z.of_nat n.
Proof.
  unfold field. pose proof (le_val_range (slice img (Z.to_nat o) n)) as H.
  assert (length (slice img (Z.to_nat o) n) <= n)%nat as Hl.
  { unfold slice. rewrite length_firstn. lia. }
  assert (256 ^ Z.of_nat (length (slice img (Z.to_nat o) n))
          <= 256 ^ Z.of_nat n) by (apply Z.pow_le_mono_r; lia).
  lia.
Qed.

Lemma entry_size_range (img : list byte) (o : Z) :
  0 <= entry_size img o < 4096.
Proof. unfold entry_size. apply Z.mod_pos_bound. lia. Qed.

Lemma round_up_spec (k o : Z) :
  0 < k -> o <= round_up k o < o + k /\ round_up k o mod k = 0.
Proof.
  intros Hk. unfold round_up.
  pose proof (Z.div_mod (o + k - 1) k ltac:(lia)).
  pose proof (Z.mod_pos_bound (o + k - 1) k ltac:(lia)).
  split; [lia | apply Z.mod_mul; lia].
Qed.

(** The header fields as the probe decodes them. *)
Lemma decode_fv_hdr_fields (img : list byte) :
  (fv.sizeof <= length img)%nat ->
  fv_len (decode_fv_hdr (firstn fv.sizeof img)) = img_fv_len img
  /\ hdr_len (decode_fv_hdr (firstn fv.sizeof img)) = img_hdr_len img.
Proof.
  intros H. cbn [decode_fv_hdr fv_len hdr_len].
  rewrite !slice_firstn by (vm_compute; lia).
  unfold img_fv_len, img_hdr_len, field. rewrite !Nat2Z.id.
  split; reflexivity.
Qed.

(** ** Loads from the blob *)

Section Loads.
Variable base : Z.
Variable img : list byte.
Let m := mk_blob base img.

Lemma load8_blob (o : Z) :
  0 <= o < img_len img -> load8 m (base + o) = Ret (byte_at img o).
Proof.
  intros H. unfold load8, in_blob, blob_len, img_len in *.
  cbn [m blob_base blob_data].
  replace (base <=? base + o) with true by (symmetry; apply Z.leb_le; lia).
  replace (base + o <? base + Z.of_nat (length img)) with true
    by (symmetry; apply Z.ltb_lt; lia).
  cbn [andb]. unfold byte_at. do 3 f_equal. lia.
Qed.

Lemma load8_outside (a : Z) :
  a < base \/ base + img_len img <= a -> load8 m a = OutOfBounds a.
Proof.
  intros H. unfold load8, in_blob, blob_len, img_len in *.
  cbn [m blob_base blob_data].
  destruct (Z.leb_spec base a); cbn [andb]; [|reflexivity].
  destruct (Z.ltb_spec a (base + Z.of_nat (length img))); [lia|reflexivity].
Qed.

Lemma load_size_blob (o : Z) :
  0 <= o -> o + 3 <= img_len img ->
  load_size m (base + o) = Ret (entry_size img o).
Proof.
  intros H0 H1. unfold load_size.
  rewrite <- !Z.add_assoc, !load8_blob by lia. cbn [bind].
  f_equal. unfold entry_size.
  pose proof (b2z_range (nth (Z.to_nat o) img x00)).
  pose proof (b2z_range (nth (Z.to_nat (o + 1)) img x00)).
  pose proof (b2z_range (nth (Z.to_nat (o + 2)) img x00)).
  rewrite get_size_mod by (unfold byte_at; lia).
  rewrite !field_S, field_0 by lia.
  replace (o + 1 + 1) with (o + 2) by lia.
  change (2 ^ 12) with 4096. f_equal. lia.
Qed.

Lemma load16_blob (o : Z) :
  0 <= o -> o + 2 <= img_len img ->
  load16 m (base + o) = Ret (field img o 2).
Proof.
  intros H0 H1. unfold load16.
  rewrite <- !Z.add_assoc, !load8_blob by lia. cbn [bind].
  rewrite !field_S, field_0 by lia. f_equal. lia.
Qed.

Lemma load32_blob (o : Z) :
  0 <= o -> o + 4 <= img_len img ->
  load32 m (base + o) = Ret (field img o 4).
Proof.
  intros H0 H1. unfold load32.
  rewrite <- !Z.add_assoc, !load8_blob by lia. cbn [bind].
  rewrite !field_S, field_0 by lia.
  replace (o + 1 + 1) with (o + 2) by lia.
  replace (o + 2 + 1) with (o + 3) by lia.
  f_equal. lia.
Qed.

(** Pointer alignment is offset alignment when the block is aligned. *)
Lemma align8_ptr_blob (o : Z) :
  heap_ok base (img_len img) -> 0 <= o <= img_len img + 2 ^ 16 ->
  align8_ptr (wrap64 (base + o)) = base + round_up 8 o.
Proof.
  intros (Hb & Ha & Hs) Ho.
  change (2 ^ 17) with 131072 in Hs. change (2 ^ 16) with 65536 in Ho.
  assert (2 ^ 64 = 18446744073709551616) as E64 by reflexivity.
  rewrite wrap64_small by lia.
  rewrite align8_ptr_eq, wrap64_small by lia.
  unfold round_up.
  pose proof (Z.div_mod (o + 8 - 1) 8 ltac:(lia)) as Hd.
  pose proof (Z.mod_pos_bound (o + 8 - 1) 8 ltac:(lia)) as Hm.
  pose proof (Z.div_mod base 8 ltac:(lia)) as Hbd.
  assert ((base + o + 7) mod 8 = (o + 8 - 1) mod 8) as ->; [|lia].
  symmetry. apply (Z.mod_unique_pos _ _ (base / 8 + (o + 8 - 1) / 8)); lia.
Qed.

Lemma align4_ptr_blob (o : Z) :
  heap_ok base (img_len img) -> 0 <= o <= img_len img + 2 ^ 16 ->
  align4_ptr (wrap64 (base + o)) = base + round_up 4 o.
Proof.
  intros (Hb & Ha & Hs) Ho.
  change (2 ^ 17) with 131072 in Hs. change (2 ^ 16) with 65536 in Ho.
  assert (2 ^ 64 = 18446744073709551616) as E64 by reflexivity.
  rewrite wrap64_small by lia.
  rewrite align4_ptr_eq, wrap64_small by lia.
  unfold round_up.
  pose proof (Z.div_mod (o + 4 - 1) 4 ltac:(lia)) as Hd.
  pose proof (Z.mod_pos_bound (o + 4 - 1) 4 ltac:(lia)) as Hm.
  pose proof (Z.div_mod base 8 ltac:(lia)) as Hbd.
  assert ((base + o + 3) mod 4 = (o + 4 - 1) mod 4) as ->; [|lia].
  symmetry.
  apply (Z.mod_unique_pos _ _ (2 * (base / 8) + (o + 4 - 1) / 4)); lia.
Qed.
End Loads.

(** ** The scans on a well-formed volume *)

Lemma sects_reach_bounds (img : list byte) (e o s : Z) :
  sects_reach img e o s ->
  0 <= o /\ o <= s /\ s + sect.sizeof <= e
  /\ byte_at img (s + sect.type) = SECTION_TE.
Proof.
  induction 1 as [o H0 H1 Ht | o s H0 H1 Ht Hr IH].
  - lia.
  - pose proof (entry_size_range img (o + sect.size)).
    pose proof (round_up_spec 4 (o + entry_size img (o + sect.size))
                  ltac:(lia)).
    lia.
Qed.

Lemma files_reach_bounds (img : list byte) (e o f : Z) :
  files_reach img e o f ->
  0 <= o /\ o <= f /\ f + file.sizeof <= e
  /\ byte_at img (f + file.type) = SECURITY_CORE.
Proof.
  induction 1 as [o H0 H1 Ht | o f H0 H1 Ht Hr IH].
  - lia.
  - pose proof (entry_size_range img (o + file.size)).
    pose proof (round_up_spec 8 (o + entry_size img (o + file.size))
                  ltac:(lia)).
    lia.
Qed.

Section Scans.
Variable base : Z.
Variable img : list byte.
Hypothesis Hheap : heap_ok base (img_len img).
Local Abbreviation m := (mk_blob base img).

(** Skipping the sections before the TE section costs one iteration
    each. *)
Lemma sect_loop_reach (pay_end end_ o s : Z) :
  pay_end <= img_len img -> base + pay_end <= end_ ->
  sects_reach img pay_end o s ->
  exists n, forall fuel,
    sect_loop (n + fuel) m (base + o) end_ = sect_loop fuel m (base + s) end_.
Proof.
  intros Hle Hend Hr.
  induction Hr as [o H0 H1 Ht | o s H0 H1 Ht Hr IH].
  - exists 0%nat. reflexivity.
  - destruct IH as [n IH]. exists (S n). intros fuel.
    unfold sect.sizeof, sect.type, sect.size in *.
    cbn [Nat.add sect_loop].
    replace (base + o <? end_) with true
      by (symmetry; apply Z.ltb_lt; lia).
    unfold sect.type, sect.size.
    rewrite <- !Z.add_assoc, load8_blob by lia. cbn [bind].
    apply Z.eqb_neq in Ht. rewrite Ht. cbn [negb].
    rewrite load_size_blob by lia. cbn [bind].
    pose proof (entry_size_range img (o + 0)).
    rewrite <- Z.add_assoc, (align4_ptr_blob base img)
      by (try exact Hheap; change (2 ^ 16) with 65536; lia).
    apply IH.
Qed.

(** At a TE section with a good signature the loop returns the
    entry_point field. *)
Lemma sect_loop_te (fuel : nat) (end_ s : Z) :
  0 <= s -> base + s < end_ ->
  s + sect.sizeof + te.sizeof <= img_len img ->
  byte_at img (s + sect.type) = SECTION_TE ->
  slice img (Z.to_nat (s + sect.sizeof + te.sign)) 2 = TE_SIGNATURE ->
  sect_loop (S fuel) m (base + s) end_ = Ret (te_entry_point img s).
Proof.
  intros H0 Hlt Hin Ht Hs.
  unfold sect.sizeof, sect.type, te.sizeof, te.sign, te_entry_point,
    te.entry_point in *.
  cbn [sect_loop].
  replace (base + s <? end_) with true by (symmetry; apply Z.ltb_lt; lia).
  unfold sect.type, sect.sizeof, check_te_sign, te.sign, te.entry_point.
  rewrite <- !Z.add_assoc, load8_blob by lia. cbn [bind].
  rewrite Ht. cbn [Z.eqb Pos.eqb SECTION_TE negb].
  rewrite load16_blob by lia. cbn [bind].
  rewrite <- Z.add_assoc in Hs.
  unfold field at 1. rewrite Hs, Z.eqb_refl. cbn [negb].
  rewrite load32_blob by lia. reflexivity.
Qed.

Lemma get_sec_entry_point_reach (f s : Z) :
  0 <= f ->
  f + entry_size img (f + file.size) <= img_len img ->
  sects_reach img (f + entry_size img (f + file.size))
    (round_up 4 (f + file.sizeof)) s ->
  s + sect.sizeof + te.sizeof <= f + entry_size img (f + file.size) ->
  slice img (Z.to_nat (s + sect.sizeof + te.sign)) 2 = TE_SIGNATURE ->
  exists n, forall fuel, (n <= fuel)%nat ->
    get_sec_entry_point fuel m (base + f) = Ret (te_entry_point img s).
Proof.
  intros H0 Hin Hr Hte Hs.
  pose proof (sects_reach_bounds _ _ _ _ Hr) as (Hb0 & Hb1 & Hb2 & Hb3).
  pose proof (entry_size_range img (f + file.size)) as Hsz.
  pose proof (round_up_spec 4 (f + file.sizeof) ltac:(lia)) as Hru.
  destruct Hheap as (Hh0 & Hh1 & Hh2).
  change (2 ^ 17) with 131072 in Hh2.
  assert (2 ^ 64 = 18446744073709551616) as E64 by reflexivity.
  unfold file.sizeof, file.size, sect.sizeof, te.sizeof in *.
  destruct (sect_loop_reach (f + entry_size img (f + 20))
              (base + (f + 24) + entry_size img (f + 20)) _ _
              ltac:(lia) ltac:(lia) Hr) as [n Hn].
  exists (S n). intros fuel Hf.
  unfold get_sec_entry_point, file.sizeof, file.size.
  rewrite <- !Z.add_assoc, load_size_blob by lia. cbn [bind].
  rewrite (align4_ptr_blob base img)
    by (try exact Hheap; change (2 ^ 16) with 65536; lia).
  rewrite (wrap64_small (base + (f + 24))) by lia.
  rewrite wrap64_small by lia.
  replace fuel with (n + S (fuel - S n))%nat by lia.
  rewrite Hn.
  apply sect_loop_te;
    first [exact Hb3 | exact Hs | unfold sect.sizeof, te.sizeof; lia].
Qed.

Lemma file_loop_reach (vol_end end_ o f : Z) :
  vol_end <= img_len img -> base + vol_end <= end_ ->
  files_reach img vol_end o f ->
  exists n, forall sfuel fuel, (n <= fuel)%nat ->
    file_loop fuel sfuel m (base + o) end_
    = get_sec_entry_point sfuel m (base + f).
Proof.
  intros Hle Hend Hr.
  induction Hr as [o H0 H1 Ht | o f H0 H1 Ht Hr IH];
    unfold file.sizeof, file.type, file.size in *.
  - exists 1%nat. intros sfuel [|fuel] Hf; [lia|].
    cbn [file_loop].
    replace (base + o <? end_) with true
      by (symmetry; apply Z.ltb_lt; lia).
    unfold file.type.
    rewrite <- !Z.add_assoc, load8_blob by lia. cbn [bind].
    rewrite Ht, Z.eqb_refl. reflexivity.
  - destruct IH as [n IH]. exists (S n). intros sfuel [|fuel] Hf; [lia|].
    cbn [file_loop].
    replace (base + o <? end_) with true
      by (symmetry; apply Z.ltb_lt; lia).
    unfold file.type, file.size.
    rewrite <- !Z.add_assoc, load8_blob by lia. cbn [bind].
    apply Z.eqb_neq in Ht. rewrite Ht.
    rewrite load_size_blob by lia. cbn [bind].
    pose proof (entry_size_range img (o + 20)).
    rewrite <- Z.add_assoc, (align8_ptr_blob base img)
      by (try exact Hheap; change (2 ^ 16) with 65536; lia).
    apply IH. lia.
Qed.
End Scans.

Lemma get_entry_point_well_formed (base : Z) (img : list byte) (f s : Z) :
  heap_ok base (img_len img) ->
  well_formed img f s ->
  exists n, forall fuel, (n <= fuel)%nat ->
    get_entry_point fuel (mk_blob base img)
      (decode_fv_hdr (firstn fv.sizeof img))
    = Ret (te_entry_point img s).
Proof.
  intros Hheap [Hhdr Hvol Hfiles Hfile Hsects Hte Hsign].
  pose proof (files_reach_bounds _ _ _ _ Hfiles) as (Hf0 & Hf1 & Hf2 & _).
  destruct (get_sec_entry_point_reach base img Hheap f s)
    as [n2 Hn2]; try assumption; try lia.
  assert (Hlen : (fv.sizeof <= length img)%nat) by apply Hhdr.
  destruct (decode_fv_hdr_fields img Hlen) as [Efv Ehdr].
  pose proof (field_range img (Z.of_nat fv.hdr_len) 2) as Hhl.
  pose proof (field_range img (Z.of_nat fv.fv_len) 8) as Hfl.
  fold (img_hdr_len img) in Hhl. fold (img_fv_len img) in Hfl.
  change (256 ^ Z.of_nat 2) with 65536 in Hhl.
  pose proof Hheap as (Hh0 & Hh1 & Hh2).
  change (2 ^ 17) with 131072 in Hh2.
  assert (2 ^ 64 = 18446744073709551616) as E64 by reflexivity.
  destruct (file_loop_reach base img Hheap (img_fv_len img)
              (base + img_hdr_len img + img_fv_len img) _ _
              Hvol ltac:(lia) Hfiles) as [n1 Hn1].
  exists (Nat.max n1 n2). intros fuel Hfuel.
  unfold get_entry_point. cbn [blob_base]. rewrite Efv, Ehdr.
  rewrite (align8_ptr_blob base img)
    by (try exact Hheap; change (2 ^ 16) with 65536; lia).
  rewrite (wrap64_small (base + img_hdr_len img)) by lia.
  rewrite wrap64_small by lia.
  rewrite Hn1 by lia. apply Hn2. lia.
Qed.

(** ** The successful scan *)

(** Claim C1.  For every well-formed image (accepted volume header, file
    entries leading to a Security-Core file, whose sections lead to a TE
    section carrying "VZ"), the probe, given enough fuel, returns exactly the
    32-bit entry_point field of that TE header. *)
Theorem probe_returns_te_entry_point (wd : world) (path : string)
    (img : list byte) (st : state) (f s : Z) :
  w_open wd path = Some img ->
  w_read_error wd (st_reads st) = false ->
  w_read_error wd (S (st_reads st)) = false ->
  heap_ok (w_heap wd) (img_len img) ->
  well_formed img f s ->
  exists n, forall fuel, (n <= fuel)%nat ->
    fst (efi_probe_firmware fuel wd (Some path) st)
      = Ret (te_entry_point img s)
    /\ 0 <= te_entry_point img s < 2 ^ 32.
Proof.
  intros Ho He1 He2 Hheap Hwf.
  destruct (get_entry_point_well_formed _ _ _ _ Hheap Hwf) as [n Hn].
  exists n. intros fuel Hfuel. split.
  - destruct (probe_reaches_scan fuel wd path img st Ho He1 He2)
      as (st1 & _ & ->).
    + destruct Hheap as (Hh & _). lia.
    + apply Hwf.
    + rewrite Hn by exact Hfuel. reflexivity.
  - apply (field_range img _ 4).
Qed.

Lemma sample_image_well_formed (entry : Z) :
  well_formed (sample_image entry) 88 120.
Proof.
  constructor.
  - repeat split; closed.
  - closed.
  - change (round_up 8 (img_hdr_len (sample_image entry))) with 56.
    change (img_fv_len (sample_image entry)) with 156.
    apply files_reach_skip; [closed | closed | closed |].
    change (round_up 8 (56 + entry_size (sample_image entry) (56 + file.size)))
      with 88.
    apply files_reach_here; closed.
  - closed.
  - change (88 + entry_size (sample_image entry) (88 + file.size)) with 156.
    change (round_up 4 (88 + file.sizeof)) with 112.
    apply sects_reach_skip; [closed | closed | closed |].
    change (round_up 4 (112 + entry_size (sample_image entry) (112 + sect.size)))
      with 120.
    apply sects_reach_here; closed.
  - closed.
  - closed.
Qed.

Lemma sample_heap_ok (img : list byte) :
  img_len img <= 2 ^ 32 ->
  heap_ok (w_heap (sample_world img)) (img_len img).
Proof.
  intros H. unfold heap_ok. cbn [sample_world w_heap].
  change (2 ^ 32) with 4294967296 in H.
  split; [lia | split; [reflexivity|]].
  change (2 ^ 17) with 131072. change (2 ^ 64) with 18446744073709551616.
  lia.
Qed.

Lemma probe_returns_te_entry_point_witness :
  exists n, forall fuel, (n <= fuel)%nat ->
    fst (efi_probe_firmware fuel (sample_world (sample_image 0x12345678))
           (Some "fw.fd"%string) init_state)
      = Ret (te_entry_point (sample_image 0x12345678) 120)
    /\ 0 <= te_entry_point (sample_image 0x12345678) 120 < 2 ^ 32.
Proof.
  apply (probe_returns_te_entry_point
           (sample_world (sample_image 0x12345678)) "fw.fd"
           (sample_image 0x12345678) init_state 88 120).
  - reflexivity.
  - reflexivity.
  - reflexivity.
  - apply sample_heap_ok. vm_compute. discriminate.
  - apply sample_image_well_formed.
Defined.

(** ** Encoded volumes are well formed *)

Lemma img_len_app (a b : list byte) : img_len (a ++ b) = img_len a + img_len b.
Proof. unfold img_len. rewrite length_app. lia. Qed.

Lemma img_len_nonneg (a : list byte) : 0 <= img_len a.
Proof. unfold img_len. lia. Qed.

Lemma img_len_pad (k : Z) (bs : list byte) :
  0 < k -> img_len (pad k bs) = round_up k (img_len bs).
Proof.
  intros Hk. unfold pad. rewrite img_len_app.
  unfold img_len at 2, zeros. rewrite repeat_length.
  pose proof (round_up_spec k (img_len bs) Hk). lia.
Qed.

Lemma round_up_add (k a b : Z) :
  0 < k -> a mod k = 0 -> round_up k (a + b) = a + round_up k b.
Proof.
  intros Hk Ha. unfold round_up.
  pose proof (Z.div_mod a k ltac:(lia)) as Hd. rewrite Ha in Hd.
  replace (a + b + k - 1) with (b + k - 1 + a / k * k) by lia.
  rewrite Z.div_add by lia. lia.
Qed.

Lemma round_up_mod (k a : Z) : 0 < k -> round_up k a mod k = 0.
Proof. intros Hk. apply round_up_spec. exact Hk. Qed.

Lemma add_mod_0 (k a b : Z) :
  0 < k -> a mod k = 0 -> b mod k = 0 -> (a + b) mod k = 0.
Proof.
  intros Hk Ha Hb. rewrite Z.add_mod, Ha, Hb by lia. apply Z.mod_0_l. lia.
Qed.

Lemma le_val_le_bytes (n : nat) (z : Z) :
  le_val (le_bytes n z) = z mod 256 ^ Z.of_nat n.
Proof.
  revert z. induction n as [|n IH]; intros z; cbn [le_bytes le_val].
  - rewrite Z.mod_1_r. reflexivity.
  - rewrite b2z_z2b, IH, Nat2Z.inj_succ, Z.pow_succ_r by lia.
    rewrite Z.rem_mul_r by lia. reflexivity.
Qed.

Lemma slice_app_r (P X : list byte) (i n : nat) :
  slice (P ++ X) (length P + i) n = slice X i n.
Proof.
  unfold slice. rewrite skipn_app, skipn_all2 by lia.
  replace (length P + i - length P)%nat with i by lia. reflexivity.
Qed.

Lemma field_app_r (P X : list byte) (i : Z) (n : nat) :
  0 <= i -> field (P ++ X) (img_len P + i) n = field X i n.
Proof.
  intros Hi. unfold field, img_len.
  replace (Z.to_nat (Z.of_nat (length P) + i))
    with (length P + Z.to_nat i)%nat by lia.
  rewrite slice_app_r. reflexivity.
Qed.

Lemma byte_at_app_r (P X : list byte) (i : Z) :
  0 <= i -> byte_at (P ++ X) (img_len P + i) = byte_at X i.
Proof.
  intros Hi. unfold byte_at, img_len.
  replace (Z.to_nat (Z.of_nat (length P) + i))
    with (length P + Z.to_nat i)%nat by lia.
  rewrite app_nth2_plus. reflexivity.
Qed.

Lemma entry_size_app_r (P X : list byte) (i : Z) :
  0 <= i -> entry_size (P ++ X) (img_len P + i) = entry_size X i.
Proof. intros Hi. unfold entry_size. rewrite field_app_r by lia. reflexivity. Qed.

(** What the scans read in an encoded file or section header. *)
Lemma enc_file_hdr_type (t sz : Z) (rest : list byte) :
  byte_at (enc_file_hdr t sz ++ rest) file.type = t mod 256.
Proof.
  unfold byte_at.
  change (nth (Z.to_nat file.type) (enc_file_hdr t sz ++ rest) x00)
    with (z2b t).
  apply b2z_z2b.
Qed.

Lemma enc_file_hdr_size (t sz : Z) (rest : list byte) :
  0 <= sz < 4096 -> entry_size (enc_file_hdr t sz ++ rest) file.size = sz.
Proof.
  intros Hsz. unfold entry_size, field.
  change (slice (enc_file_hdr t sz ++ rest) (Z.to_nat file.size) 3)
    with (le_bytes 3 sz).
  rewrite le_val_le_bytes.
  change (256 ^ Z.of_nat 3) with 16777216. change (2 ^ 12) with 4096.
  rewrite (Z.mod_small sz 16777216) by lia. apply Z.mod_small. lia.
Qed.

Lemma enc_sect_hdr_type (sz t : Z) (rest : list byte) :
  byte_at (enc_sect_hdr sz t ++ rest) sect.type = t mod 256.
Proof.
  unfold byte_at.
  change (nth (Z.to_nat sect.type) (enc_sect_hdr sz t ++ rest) x00)
    with (z2b t).
  apply b2z_z2b.
Qed.

Lemma enc_sect_hdr_size (sz t : Z) (rest : list byte) :
  0 <= sz < 4096 -> entry_size (enc_sect_hdr sz t ++ rest) sect.size = sz.
Proof.
  intros Hsz. unfold entry_size, field.
  change (slice (enc_sect_hdr sz t ++ rest) (Z.to_nat sect.size) 3)
    with (le_bytes 3 sz).
  rewrite le_val_le_bytes.
  change (256 ^ Z.of_nat 3) with 16777216. change (2 ^ 12) with 4096.
  rewrite (Z.mod_small sz 16777216) by lia. apply Z.mod_small. lia.
Qed.

Lemma img_len_enc_file (f : file_desc) :
  img_len (enc_file f) = round_up 8 (file.sizeof + img_len (fd_payload f)).
Proof.
  unfold enc_file. rewrite img_len_pad, img_len_app by lia. reflexivity.
Qed.

Lemma img_len_enc_sect (s : sect_desc) :
  img_len (enc_sect s) = round_up 4 (sect.sizeof + img_len (sd_body s)).
Proof.
  unfold enc_sect. rewrite img_len_pad, img_len_app by lia. reflexivity.
Qed.

Lemma img_len_enc_files (fs : list file_desc) :
  0 <= img_len (flat_map enc_file fs)
  /\ img_len (flat_map enc_file fs) mod 8 = 0.
Proof.
  split; [apply img_len_nonneg|].
  induction fs as [|f fs IH]; [reflexivity|].
  cbn [flat_map]. rewrite img_len_app, img_len_enc_file.
  apply add_mod_0; [lia | apply round_up_mod; lia | exact IH].
Qed.

Lemma img_len_enc_sects (ss : list sect_desc) :
  0 <= img_len (flat_map enc_sect ss)
  /\ img_len (flat_map enc_sect ss) mod 4 = 0.
Proof.
  split; [apply img_len_nonneg|].
  induction ss as [|s ss IH]; [reflexivity|].
  cbn [flat_map]. rewrite img_len_app, img_len_enc_sect.
  apply add_mod_0; [lia | apply round_up_mod; lia | exact IH].
Qed.

Lemma enc_file_at_type (P R : list byte) (f : file_desc) :
  byte_at (P ++ enc_file f ++ R) (img_len P + file.type) = b2z (fd_type f).
Proof.
  rewrite byte_at_app_r by (unfold file.type; lia).
  unfold enc_file, pad. rewrite <- !app_assoc.
  rewrite enc_file_hdr_type.
  pose proof (b2z_range (fd_type f)). apply Z.mod_small. lia.
Qed.

Lemma enc_file_at_size (P R : list byte) (f : file_desc) :
  file.sizeof + img_len (fd_payload f) < 4096 ->
  entry_size (P ++ enc_file f ++ R) (img_len P + file.size)
  = file.sizeof + img_len (fd_payload f).
Proof.
  intros Hsz. rewrite entry_size_app_r by (unfold file.size; lia).
  unfold enc_file, pad. rewrite <- !app_assoc.
  pose proof (img_len_nonneg (fd_payload f)).
  apply enc_file_hdr_size. unfold file.sizeof in *. lia.
Qed.

Lemma enc_sect_at_type (P R : list byte) (s : sect_desc) :
  byte_at (P ++ enc_sect s ++ R) (img_len P + sect.type) = b2z (sd_type s).
Proof.
  rewrite byte_at_app_r by (unfold sect.type; lia).
  unfold enc_sect, pad. rewrite <- !app_assoc.
  rewrite enc_sect_hdr_type.
  pose proof (b2z_range (sd_type s)). apply Z.mod_small. lia.
Qed.

Lemma enc_sect_at_size (P R : list byte) (s : sect_desc) :
  sect.sizeof + img_len (sd_body s) < 4096 ->
  entry_size (P ++ enc_sect s ++ R) (img_len P + sect.size)
  = sect.sizeof + img_len (sd_body s).
Proof.
  intros Hsz. rewrite entry_size_app_r by (unfold sect.size; lia).
  unfold enc_sect, pad. rewrite <- !app_assoc.
  pose proof (img_len_nonneg (sd_body s)).
  apply enc_sect_hdr_size. unfold sect.sizeof in *. lia.
Qed.

Lemma files_reach_enc (fs : list file_desc) (sz : Z) (Q : list byte) :
  forall (P : list byte) (limit : Z),
  Forall (fun f => b2z (fd_type f) <> SECURITY_CORE
                   /\ file.sizeof + img_len (fd_payload f) < 4096) fs ->
  img_len P mod 8 = 0 ->
  img_len P + img_len (flat_map enc_file fs) + file.sizeof <= limit ->
  files_reach
    (P ++ flat_map enc_file fs ++ enc_file_hdr SECURITY_CORE sz ++ Q)
    limit (img_len P) (img_len P + img_len (flat_map enc_file fs)).
Proof.
  induction fs as [|f fs IH]; intros P limit Hok HP Hlim.
  - cbn [flat_map app]. change (img_len []) with 0 in *.
    rewrite Z.add_0_r in *.
    apply files_reach_here; [apply img_len_nonneg | exact Hlim |].
    rewrite byte_at_app_r by (unfold file.type; lia).
    rewrite enc_file_hdr_type. reflexivity.
  - inversion Hok as [|f' fs' [Hty Hsz] Hok']; subst.
    cbn [flat_map] in *. rewrite img_len_app in *.
    pose proof (img_len_nonneg (fd_payload f)) as Hp0.
    pose proof (img_len_nonneg (flat_map enc_file fs)) as Hfs0.
    pose proof (img_len_nonneg P) as HP0.
    pose proof (round_up_spec 8 (file.sizeof + img_len (fd_payload f))
                  ltac:(lia)) as [Hru Hrm].
    rewrite img_len_enc_file in *.
    rewrite <- !app_assoc.
    apply files_reach_skip.
    + exact HP0.
    + unfold file.sizeof in *. lia.
    + rewrite enc_file_at_type. exact Hty.
    + rewrite enc_file_at_size by exact Hsz.
      rewrite round_up_add by (lia || exact HP).
      specialize (IH (P ++ enc_file f) limit Hok').
      rewrite img_len_app, img_len_enc_file in IH.
      rewrite <- !app_assoc in IH. rewrite Z.add_assoc.
      apply IH; [|lia].
      apply add_mod_0; [lia | exact HP | exact Hrm].
Qed.

Lemma sects_reach_enc (ss : list sect_desc) (sz : Z) (Q : list byte) :
  forall (P : list byte) (limit : Z),
  Forall (fun s => b2z (sd_type s) <> SECTION_TE) ss ->
  img_len P mod 4 = 0 ->
  img_len (flat_map enc_sect ss) < 4096 ->
  img_len P + img_len (flat_map enc_sect ss) + sect.sizeof <= limit ->
  sects_reach
    (P ++ flat_map enc_sect ss ++ enc_sect_hdr sz SECTION_TE ++ Q)
    limit (img_len P) (img_len P + img_len (flat_map enc_sect ss)).
Proof.
  induction ss as [|s ss IH]; intros P limit Hok HP Hsmall Hlim.
  - cbn [flat_map app]. change (img_len []) with 0 in *.
    rewrite Z.add_0_r in *.
    apply sects_reach_here; [apply img_len_nonneg | exact Hlim |].
    rewrite byte_at_app_r by (unfold sect.type; lia).
    rewrite enc_sect_hdr_type. reflexivity.
  - inversion Hok as [|s' ss' Hty Hok']; subst.
    cbn [flat_map] in *. rewrite img_len_app in *.
    pose proof (img_len_nonneg (sd_body s)) as Hp0.
    pose proof (img_len_nonneg (flat_map enc_sect ss)) as Hss0.
    pose proof (img_len_nonneg P) as HP0.
    pose proof (round_up_spec 4 (sect.sizeof + img_len (sd_body s))
                  ltac:(lia)) as [Hru Hrm].
    rewrite img_len_enc_sect in *.
    rewrite <- !app_assoc.
    apply sects_reach_skip.
    + exact HP0.
    + unfold sect.sizeof in *. lia.
    + rewrite enc_sect_at_type. exact Hty.
    + rewrite enc_sect_at_size by lia.
      rewrite round_up_add by (lia || exact HP).
      specialize (IH (P ++ enc_sect s) limit Hok').
      rewrite img_len_app, img_len_enc_sect in IH.
      rewrite <- !app_assoc in IH. rewrite Z.add_assoc.
      apply IH; [| unfold sect.sizeof in *; lia | lia].
      apply add_mod_0; [lia | exact HP | exact Hrm].
Qed.

Ltac regroup :=
  unfold enc_volume, volume_body, sec_payload, enc_te_sect;
  rewrite <- ?app_assoc; reflexivity.

(** Every encoded volume that satisfies [volume_ok] is well formed, and the
    entry_point field of its TE header is the described entry point. *)
Lemma enc_volume_well_formed (v : volume_desc) :
  volume_ok v ->
  well_formed (enc_volume v) (sec_offset v) (te_sect_offset v)
  /\ te_entry_point (enc_volume v) (te_sect_offset v) = vd_entry v mod 2 ^ 32.
Proof.
  intros (Hfiles & Hsects & Hsec & Htotal).
  set (H := enc_fv_hdr (zeros 16) FV_SIGNATURE
              (Z.of_nat fv.sizeof + img_len (volume_body v))
              (Z.of_nat fv.sizeof)).
  set (files := flat_map enc_file (vd_files v)).
  set (sects := flat_map enc_sect (vd_sects v)).
  set (fhdr := enc_file_hdr SECURITY_CORE
                 (file.sizeof + img_len (sec_payload v))).
  set (shdr := enc_sect_hdr (sect.sizeof + te.sizeof + img_len (vd_code v))
                 SECTION_TE).
  set (thdr := enc_te_hdr TE_SIGNATURE (vd_entry v)).
  assert (HlenH : img_len H = 56) by reflexivity.
  assert (Hlenf : img_len fhdr = 24) by reflexivity.
  assert (Hlens : img_len shdr = 4) by reflexivity.
  assert (Hlent : img_len thdr = 32) by reflexivity.
  destruct (img_len_enc_files (vd_files v)) as [Hf0 Hf8]. fold files in Hf0, Hf8.
  destruct (img_len_enc_sects (vd_sects v)) as [Hs0 Hs4]. fold sects in Hs0, Hs4.
  pose proof (img_len_nonneg (vd_code v)) as Hc0.
  pose proof (img_len_nonneg (vd_sects_after v)) as Ha0.
  pose proof (img_len_nonneg (vd_files_after v)) as Hb0.
  assert (Hpay : img_len (sec_payload v)
                 = img_len sects + 36 + img_len (vd_code v)
                   + img_len (vd_sects_after v)).
  { unfold sec_payload, enc_te_sect. fold sects shdr thdr.
    rewrite !img_len_app, Hlens, Hlent. lia. }
  assert (Hbody : img_len (volume_body v)
                  = img_len files + 24 + img_len (sec_payload v)
                    + img_len (vd_files_after v)).
  { unfold volume_body. fold files fhdr. rewrite !img_len_app, Hlenf. lia. }
  assert (Himg : img_len (enc_volume v) = 56 + img_len (volume_body v)).
  { unfold enc_volume. fold H. rewrite img_len_app, HlenH. reflexivity. }
  assert (Efv : img_fv_len (enc_volume v) = 56 + img_len (volume_body v)).
  { unfold img_fv_len, field.
    change (slice (enc_volume v) (Z.to_nat (Z.of_nat fv.fv_len)) 8)
      with (le_bytes 8 (Z.of_nat fv.sizeof + img_len (volume_body v))).
    rewrite le_val_le_bytes. change (256 ^ Z.of_nat 8) with (2 ^ 64).
    pose proof (img_len_nonneg (volume_body v)).
    apply Z.mod_small. change (Z.of_nat fv.sizeof) with 56 in *. lia. }
  assert (Ehdr : img_hdr_len (enc_volume v) = 56) by reflexivity.
  assert (Eoff : sec_offset v = 56 + img_len files) by reflexivity.
  assert (Esoff : te_sect_offset v = 56 + img_len files + 24 + img_len sects)
    by reflexivity.
  assert (Esize : entry_size (enc_volume v) (sec_offset v + file.size)
                  = 24 + img_len (sec_payload v)).
  { replace (enc_volume v)
      with ((H ++ files) ++ fhdr ++ sec_payload v ++ vd_files_after v)
      by (subst H files fhdr; unfold enc_volume, volume_body;
          rewrite <- ?app_assoc; reflexivity).
    replace (sec_offset v) with (img_len (H ++ files))
      by (rewrite img_len_app, HlenH, Eoff; reflexivity).
    rewrite entry_size_app_r by (unfold file.size; lia).
    subst fhdr. apply enc_file_hdr_size.
    pose proof (img_len_nonneg (sec_payload v)).
    unfold file.sizeof in *. lia. }
  assert (Ru8 : round_up 8 56 = 56) by reflexivity.
  assert (Ru4 : round_up 4 (sec_offset v + file.sizeof)
                = sec_offset v + file.sizeof).
  { rewrite Eoff. unfold file.sizeof.
    replace (56 + img_len files + 24) with (56 + img_len files + 24 + 0)
      by lia.
    rewrite round_up_add; [reflexivity | lia |].
    apply add_mod_0; [lia | | reflexivity].
    apply add_mod_0; [lia | reflexivity |].
    pose proof (Z.div_mod (img_len files) 8 ltac:(lia)) as Hd.
    rewrite Hf8 in Hd. symmetry.
    apply (Z.mod_unique_pos _ _ (2 * (img_len files / 8))); lia. }
  split.
  - constructor.
    + split; [|split; reflexivity].
      unfold img_len in Himg. change fv.sizeof with 56%nat.
      pose proof (img_len_nonneg (volume_body v)). lia.
    + rewrite Efv, Himg. lia.
    + rewrite Efv, Ehdr, Ru8, Eoff, Hbody.
      replace (enc_volume v)
        with (H ++ files ++ fhdr ++ sec_payload v ++ vd_files_after v)
        by (subst H files fhdr; reflexivity).
      rewrite <- HlenH at 2 3.
      subst fhdr. apply files_reach_enc;
        [exact Hfiles | rewrite HlenH; reflexivity |].
      rewrite HlenH. unfold file.sizeof.
      pose proof (img_len_nonneg (sec_payload v)). fold files. lia.
    + rewrite Esize, Efv, Eoff, Hbody. lia.
    + rewrite Esize, Ru4, Eoff. unfold file.sizeof.
      replace (enc_volume v)
        with ((H ++ files ++ fhdr) ++ sects ++ shdr
              ++ thdr ++ vd_code v ++ vd_sects_after v ++ vd_files_after v)
        by (subst H files fhdr sects shdr thdr; regroup).
      replace (56 + img_len files + 24) with (img_len (H ++ files ++ fhdr))
        by (rewrite !img_len_app, HlenH, Hlenf; lia).
      replace (56 + img_len files + (24 + img_len (sec_payload v)))
        with (img_len (H ++ files ++ fhdr) + img_len sects + 36
              + img_len (vd_code v) + img_len (vd_sects_after v))
        by (rewrite !img_len_app, HlenH, Hlenf, Hpay; lia).
      replace (te_sect_offset v)
        with (img_len (H ++ files ++ fhdr) + img_len sects)
        by (rewrite !img_len_app, HlenH, Hlenf, Esoff; lia).
      subst shdr. apply sects_reach_enc.
      * exact Hsects.
      * rewrite !img_len_app, HlenH, Hlenf.
        pose proof (Z.div_mod (img_len files) 8 ltac:(lia)) as Hd.
        rewrite Hf8 in Hd. symmetry.
        apply (Z.mod_unique_pos _ _ (20 + 2 * (img_len files / 8))); lia.
      * fold sects. unfold file.sizeof in Hsec. lia.
      * fold sects. unfold sect.sizeof. lia.
    + rewrite Esize, Esoff, Eoff, Hpay. unfold sect.sizeof, te.sizeof. lia.
    + replace (enc_volume v)
        with ((H ++ files ++ fhdr ++ sects ++ shdr)
              ++ thdr ++ vd_code v ++ vd_sects_after v ++ vd_files_after v)
        by (subst H files fhdr sects shdr thdr; regroup).
      replace (Z.to_nat (te_sect_offset v + sect.sizeof + te.sign))
        with (length (H ++ files ++ fhdr ++ sects ++ shdr) + 0)%nat.
      * rewrite slice_app_r. reflexivity.
      * apply Nat2Z.inj. rewrite Nat2Z.inj_add. fold (img_len (H ++ files ++ fhdr ++ sects ++ shdr)).
        rewrite !img_len_app, HlenH, Hlenf, Hlens, Esoff.
        unfold sect.sizeof, te.sign. lia.
  - unfold te_entry_point.
    replace (enc_volume v)
      with ((H ++ files ++ fhdr ++ sects ++ shdr)
            ++ thdr ++ vd_code v ++ vd_sects_after v ++ vd_files_after v)
      by (subst H files fhdr sects shdr thdr; regroup).
    replace (te_sect_offset v + sect.sizeof + te.entry_point)
      with (img_len (H ++ files ++ fhdr ++ sects ++ shdr) + 8)
      by (rewrite !img_len_app, HlenH, Hlenf, Hlens, Esoff;
          unfold sect.sizeof, te.entry_point; lia).
    rewrite field_app_r by lia. unfold field.
    change (slice (thdr ++ vd_code v ++ vd_sects_after v ++ vd_files_after v)
              (Z.to_nat 8) 4) with (le_bytes 4 (vd_entry v)).
    rewrite le_val_le_bytes. reflexivity.
Qed.

Lemma sample_image_encoded (entry : Z) :
  enc_volume (sample_desc entry) = sample_image entry.
Proof. reflexivity. Qed.

Lemma sample_desc_ok (entry : Z) : volume_ok (sample_desc entry).
Proof.
  unfold volume_ok. cbn [sample_desc vd_files vd_sects].
  split; [|split; [|split]].
  - constructor; [|constructor]. split; closed.
  - constructor; [|constructor]. closed.
  - closed.
  - closed.
Qed.

(** X8.  Laying a volume out as the structures of the source describe it
    and probing the result gives back the entry point that was laid out:
    the probe on an encoded volume, whose files up to the Security-Core file
    are shorter than 4096 bytes, returns the described entry point. *)
Lemma probe_enc_volume (wd : world) (path : string) (v : volume_desc)
    (st : state) :
  w_open wd path = Some (enc_volume v) ->
  w_read_error wd (st_reads st) = false ->
  w_read_error wd (S (st_reads st)) = false ->
  heap_ok (w_heap wd) (img_len (enc_volume v)) ->
  volume_ok v ->
  exists n, forall fuel, (n <= fuel)%nat ->
    fst (efi_probe_firmware fuel wd (Some path) st)
    = Ret (vd_entry v mod 2 ^ 32).
Proof.
  intros Ho He1 He2 Hheap Hok.
  destruct (enc_volume_well_formed v Hok) as [Hwf <-].
  destruct (get_entry_point_well_formed _ _ _ _ Hheap Hwf) as [n Hn].
  exists n. intros fuel Hfuel.
  destruct (probe_reaches_scan fuel wd path (enc_volume v) st Ho He1 He2)
    as (st1 & _ & ->).
  - destruct Hheap as (Hh & _). lia.
  - apply Hwf.
  - rewrite Hn by exact Hfuel. reflexivity.
Qed.

Lemma probe_enc_volume_witness :
  exists n, forall fuel, (n <= fuel)%nat ->
    fst (efi_probe_firmware fuel
           (sample_world (enc_volume (sample_desc 0x12345678)))
           (Some "fw.fd"%string) init_state)
    = Ret (vd_entry (sample_desc 0x12345678) mod 2 ^ 32).
Proof.
  apply (probe_enc_volume
           (sample_world (enc_volume (sample_desc 0x12345678)))
           "fw.fd" (sample_desc 0x12345678) init_state).
  - reflexivity.
  - reflexivity.
  - reflexivity.
  - apply sample_heap_ok. vm_compute. discriminate.
  - apply sample_desc_ok.
Defined.

(** ** The scan that finds no Security-Core file *)







(** ** Single iterations of the loops *)

(** One iteration of each loop, for any blob. *)
Lemma file_loop_skip (m : blob_t) (p e t sz : Z) (fuel sfuel : nat) :
  (p <? e) = true ->
  load8 m (p + file.type) = Ret t ->
  (t =? SECURITY_CORE) = false ->
  load_size m (p + file.size) = Ret sz ->
  file_loop (S fuel) sfuel m p e
  = file_loop fuel sfuel m (align8_ptr (wrap64 (p + sz))) e.
Proof.
  intros Hlt Ht Hne Hsz. cbn [file_loop].
  rewrite Hlt, Ht. cbn [bind]. rewrite Hne, Hsz. reflexivity.
Qed.


Lemma sect_loop_skip (m : blob_t) (p e t sz : Z) (fuel : nat) :
  (p <? e) = true ->
  load8 m (p + sect.type) = Ret t ->
  (t =? SECTION_TE) = false ->
  load_size m (p + sect.size) = Ret sz ->
  sect_loop (S fuel) m p e = sect_loop fuel m (align4_ptr (wrap64 (p + sz))) e.
Proof.
  intros Hlt Ht Hne Hsz. cbn [sect_loop].
  rewrite Hlt, Ht. cbn [bind]. rewrite Hne. cbn [negb]. rewrite Hsz.
  reflexivity.
Qed.

Lemma sect_loop_at_te (m : blob_t) (p e : Z) (fuel : nat) :
  (p <? e) = true ->
  load8 m (p + sect.type) = Ret SECTION_TE ->
  check_te_sign m (p + sect.sizeof) = Ret true ->
  sect_loop (S fuel) m p e = load32 m (p + sect.sizeof + te.entry_point).
Proof.
  intros Hlt Ht Hs. cbn [sect_loop].
  rewrite Hlt, Ht. cbn [bind]. rewrite Z.eqb_refl. cbn [negb].
  rewrite Hs. reflexivity.
Qed.

Lemma file_loop_at_sec (m : blob_t) (p e : Z) (fuel sfuel : nat) :
  (p <? e) = true ->
  load8 m (p + file.type) = Ret SECURITY_CORE ->
  file_loop (S fuel) sfuel m p e = get_sec_entry_point sfuel m p.
Proof.
  intros Hlt Ht. cbn [file_loop]. rewrite Hlt, Ht. reflexivity.
Qed.

Lemma get_sec_entry_point_unfold (m : blob_t) (p sz : Z) (sfuel : nat) :
  load_size m (p + file.size) = Ret sz ->
  get_sec_entry_point sfuel m p
  = sect_loop sfuel m (align4_ptr (wrap64 (p + file.sizeof)))
      (wrap64 (wrap64 (p + file.sizeof) + sz)).
Proof.
  intros Hsz. unfold get_sec_entry_point. rewrite Hsz. reflexivity.
Qed.

(** ** Fuel

    Fuel only bounds the number of iterations: a run that ends within its
    fuel ends in the same way with any larger amount. *)

Lemma sect_loop_fuel_mono (m : blob_t) (end_ : Z) (n n' : nat) (ptr : Z) :
  (n <= n')%nat ->
  sect_loop n m ptr end_ <> OutOfFuel ->
  sect_loop n' m ptr end_ = sect_loop n m ptr end_.
Proof.
  revert n' ptr. induction n as [|n IH]; intros n' ptr Hle Hne.
  - cbn [sect_loop] in Hne. congruence.
  - destruct n' as [|n']; [lia|]. cbn [sect_loop] in *.
    destruct (ptr <? end_); [|reflexivity].
    destruct (load8 m (ptr + sect.type)) as [t| |]; cbn [bind] in *;
      try reflexivity.
    destruct (negb (t =? SECTION_TE)); [|reflexivity].
    destruct (load_size m (ptr + sect.size)) as [sz| |]; cbn [bind] in *;
      try reflexivity.
    apply IH; [lia | exact Hne].
Qed.

Lemma get_sec_entry_point_fuel_mono (m : blob_t) (n n' : nat) (p : Z) :
  (n <= n')%nat ->
  get_sec_entry_point n m p <> OutOfFuel ->
  get_sec_entry_point n' m p = get_sec_entry_point n m p.
Proof.
  intros Hle Hne. unfold get_sec_entry_point in *.
  destruct (load_size m (p + file.size)) as [sz| |]; cbn [bind] in *;
    try reflexivity.
  apply sect_loop_fuel_mono; assumption.
Qed.

Lemma file_loop_fuel_mono (m : blob_t) (end_ : Z) (n n' s s' : nat) (ptr : Z) :
  (n <= n')%nat -> (s <= s')%nat ->
  file_loop n s m ptr end_ <> OutOfFuel ->
  file_loop n' s' m ptr end_ = file_loop n s m ptr end_.
Proof.
  revert n' ptr. induction n as [|n IH]; intros n' ptr Hle Hs Hne.
  - cbn [file_loop] in Hne. congruence.
  - destruct n' as [|n']; [lia|]. cbn [file_loop] in *.
    destruct (ptr <? end_); [|reflexivity].
    destruct (load8 m (ptr + file.type)) as [t| |]; cbn [bind] in *;
      try reflexivity.
    destruct (t =? SECURITY_CORE).
    + apply get_sec_entry_point_fuel_mono; assumption.
    + destruct (load_size m (ptr + file.size)) as [sz| |]; cbn [bind] in *;
        try reflexivity.
      apply IH; [lia | exact Hs | exact Hne].
Qed.

Lemma get_entry_point_fuel_mono (m : blob_t) (h : fv_hdr) (n n' : nat) :
  (n <= n')%nat ->
  get_entry_point n m h <> OutOfFuel ->
  get_entry_point n' m h = get_entry_point n m h.
Proof.
  intros Hle Hne. unfold get_entry_point in *.
  apply file_loop_fuel_mono; assumption.
Qed.

(** ** Entries whose decoded size is zero *)

(** An entry of another type whose size decodes to 0 at an aligned position
    leaves the scan position where it is. *)
Lemma file_loop_stuck (m : blob_t) (p e t : Z) :
  (p <? e) = true ->
  load8 m (p + file.type) = Ret t ->
  (t =? SECURITY_CORE) = false ->
  load_size m (p + file.size) = Ret 0 ->
  align8_ptr (wrap64 (p + 0)) = p ->
  forall fuel sfuel, file_loop fuel sfuel m p e = OutOfFuel.
Proof.
  intros Hlt Ht Hne Hsz Hal fuel sfuel.
  induction fuel as [|fuel IH]; [reflexivity|].
  cbn [file_loop]. rewrite Hlt, Ht. cbn [bind]. rewrite Hne, Hsz.
  cbn [bind]. rewrite Hal. exact IH.
Qed.

Lemma sect_loop_stuck (m : blob_t) (p e t : Z) :
  (p <? e) = true ->
  load8 m (p + sect.type) = Ret t ->
  (t =? SECTION_TE) = false ->
  load_size m (p + sect.size) = Ret 0 ->
  align4_ptr (wrap64 (p + 0)) = p ->
  forall fuel, sect_loop fuel m p e = OutOfFuel.
Proof.
  intros Hlt Ht Hne Hsz Hal fuel.
  induction fuel as [|fuel IH]; [reflexivity|].
  cbn [sect_loop]. rewrite Hlt, Ht. cbn [bind]. rewrite Hne. cbn [negb].
  rewrite Hsz. cbn [bind]. rewrite Hal. exact IH.
Qed.

(** Claim C7 (the code departs from it).  On a volume whose first file has
    another type and is 4096 bytes long, the file-entry loop never advances,
    and on a Security-Core file whose first section has another type and is
    4096 bytes long, the section loop never advances: whatever the fuel, the
    probe does not complete. *)
Theorem zero_decoded_size_never_completes :
  (forall fuel,
     fst (efi_probe_firmware fuel (sample_world file_4096_image)
            (Some "fw.fd"%string) init_state) = OutOfFuel)
  /\ (forall fuel,
     fst (efi_probe_firmware fuel (sample_world section_4096_image)
            (Some "fw.fd"%string) init_state) = OutOfFuel).
Proof.
  split; intros fuel.
  - rewrite sample_world_scan by (repeat split; closed).
    unfold get_entry_point.
    apply (file_loop_stuck _ _ _ 2); vm_compute; reflexivity.
  - rewrite sample_world_scan by (repeat split; closed).
    unfold get_entry_point.
    destruct fuel as [|fuel]; [reflexivity|].
    rewrite file_loop_at_sec by (vm_compute; reflexivity).
    rewrite (get_sec_entry_point_unfold _ _ 24) by (vm_compute; reflexivity).
    apply (sect_loop_stuck _ _ _ 0x19); vm_compute; reflexivity.
Qed.

(** ** Reads and the bounds of the blob *)

Section Bounds.
Variable m : blob_t.
Hypothesis Hheap : heap_ok (blob_base m) (blob_len m).







End Bounds.





(** ** The end of the section scan *)

(** Claim C3 (the code departs from it).  In [overrun_image] the
    Security-Core file at offset 56 is 28 bytes long, so its payload is the
    one 4-byte section at offsets 80..83, which is not a TE section, and the
    next file starts at offset 88.  The section scan nevertheless decodes a
    section header at offset 84 and a TE header at offset 88, and the probe
    returns 0xDEADBEEF, bytes 96..99 of the file, which belong to the next
    file's header. *)
Theorem section_scan_overruns_file_payload :
  byte_at overrun_image (56 + file.type) = SECURITY_CORE
  /\ entry_size overrun_image (56 + file.size) = 28
  /\ round_up 8 (56 + entry_size overrun_image (56 + file.size)) = 88
  /\ byte_at overrun_image (80 + sect.type) <> SECTION_TE
  /\ round_up 4 (80 + entry_size overrun_image (80 + sect.size)) = 84
  /\ field overrun_image 96 4 = 0xDEADBEEF
  /\ (forall fuel, (2 <= fuel)%nat ->
        fst (efi_probe_firmware fuel (sample_world overrun_image)
               (Some "fw.fd"%string) init_state) = Ret 0xDEADBEEF).
Proof.
  split; [reflexivity|]. split; [reflexivity|]. split; [reflexivity|].
  split; [vm_compute; discriminate|]. split; [reflexivity|].
  split; [reflexivity|].
  intros fuel Hf.
  rewrite sample_world_scan by (repeat split; closed).
  unfold get_entry_point.
  destruct fuel as [|[|fuel]]; [lia | lia |].
  rewrite file_loop_at_sec by (vm_compute; reflexivity).
  rewrite (get_sec_entry_point_unfold _ _ 28) by (vm_compute; reflexivity).
  rewrite (sect_loop_skip _ _ _ 0x19 4) by (vm_compute; reflexivity).
  rewrite sect_loop_at_te by (vm_compute; reflexivity).
  vm_compute. reflexivity.
Qed.

(** ** The returned entry point is not validated *)

(** Claim C10.  The entry_point field of the TE header is returned as it
    is: for the well-formed sample image with entry_point 0 the probe
    returns 0, as it does for a volume it skips, and with entry_point
    0xFFFFFFFF it returns 0xFFFFFFFF, the sentinel it also returns for a
    NULL path or a volume without a Security-Core file. *)
Theorem entry_point_returned_unchecked :
  (well_formed (sample_image 0) 88 120
   /\ te_entry_point (sample_image 0) 120 = 0
   /\ exists n, forall fuel, (n <= fuel)%nat ->
        fst (efi_probe_firmware fuel (sample_world (sample_image 0))
               (Some "fw.fd"%string) init_state) = Ret 0)
  /\ (well_formed (sample_image 0xFFFFFFFF) 88 120
      /\ te_entry_point (sample_image 0xFFFFFFFF) 120 = EFI_INVALID_ENTRY_POINT
      /\ exists n, forall fuel, (n <= fuel)%nat ->
           fst (efi_probe_firmware fuel
                  (sample_world (sample_image 0xFFFFFFFF))
                  (Some "fw.fd"%string) init_state)
           = Ret EFI_INVALID_ENTRY_POINT)
  /\ (forall fuel,
        fst (efi_probe_firmware fuel (sample_world bad_sign_image)
               (Some "fw.fd"%string) init_state) = Ret 0)
  /\ (forall fuel,
        fst (efi_probe_firmware fuel (sample_world (sample_image 0)) None
               init_state) = Ret EFI_INVALID_ENTRY_POINT).
Proof.
  assert (Hscan : forall entry,
    exists n, forall fuel, (n <= fuel)%nat ->
      fst (efi_probe_firmware fuel (sample_world (sample_image entry))
             (Some "fw.fd"%string) init_state)
      = Ret (te_entry_point (sample_image entry) 120)).
  { intros entry.
    destruct (get_entry_point_well_formed
                (w_heap (sample_world (sample_image entry)))
                (sample_image entry) 88 120) as [n Hn].
    - apply sample_heap_ok. vm_compute. discriminate.
    - apply sample_image_well_formed.
    - exists n. intros fuel Hf.
      rewrite sample_world_scan by apply sample_image_well_formed.
      apply Hn. exact Hf. }
  split; [|split; [|split]].
  - split; [apply sample_image_well_formed|].
    split; [reflexivity | apply (Hscan 0)].
  - split; [apply sample_image_well_formed|].
    split; [reflexivity | apply (Hscan 0xFFFFFFFF)].
  - intros fuel. vm_compute. reflexivity.
  - intros fuel. reflexivity.
Qed.

(** * Further properties of the code *)

(** ** The alignment helpers *)

Lemma align_land_range (x k : Z) :
  0 <= k < 64 -> 0 <= x < 2 ^ 64 ->
  0 <= x - x mod 2 ^ k < 2 ^ 64 /\ (x - x mod 2 ^ k) mod 2 ^ k = 0.
Proof.
  intros Hk Hx.
  assert (0 < 2 ^ k) as Hp by (apply Z.pow_pos_nonneg; lia).
  pose proof (Z.mod_pos_bound x (2 ^ k) Hp) as Hm.
  pose proof (Z.div_mod x (2 ^ k) ltac:(lia)) as Hd.
  pose proof (Z.div_pos x (2 ^ k) ltac:(lia) Hp) as Hq.
  split; [nia|].
  replace (x - x mod 2 ^ k) with (x / 2 ^ k * 2 ^ k) by lia.
  apply Z.mod_mul. lia.
Qed.

(** X1.  Whatever the pointer, [align4_ptr] and [align8_ptr] return a 64-bit
    address that is a multiple of 4, respectively 8, and applying the helper
    a second time changes nothing. *)
Theorem align_ptr_aligned_idempotent (p : Z) :
  (0 <= align4_ptr p < 2 ^ 64
   /\ align4_ptr p mod 4 = 0
   /\ align4_ptr (align4_ptr p) = align4_ptr p)
  /\ (0 <= align8_ptr p < 2 ^ 64
      /\ align8_ptr p mod 8 = 0
      /\ align8_ptr (align8_ptr p) = align8_ptr p).
Proof.
  assert (2 ^ 64 = 18446744073709551616) as E64 by reflexivity.
  split.
  - assert (0 <= align4_ptr p < 2 ^ 64 /\ align4_ptr p mod 4 = 0) as [Hr Hm].
    { rewrite align4_ptr_eq.
      apply (align_land_range (wrap64 (p + 3)) 2); [lia|].
      apply Z.mod_pos_bound. lia. }
    split; [exact Hr | split; [exact Hm|]].
    apply align4_ptr_aligned; [lia | | exact Hm].
    pose proof (Z.div_mod (align4_ptr p) 4 ltac:(lia)). lia.
  - assert (0 <= align8_ptr p < 2 ^ 64 /\ align8_ptr p mod 8 = 0) as [Hr Hm].
    { rewrite align8_ptr_eq.
      apply (align_land_range (wrap64 (p + 7)) 3); [lia|].
      apply Z.mod_pos_bound. lia. }
    split; [exact Hr | split; [exact Hm|]].
    apply align8_ptr_aligned; [lia | | exact Hm].
    pose proof (Z.div_mod (align8_ptr p) 8 ltac:(lia)). lia.
Qed.



(** X3.  At the top of the address space the addition wraps: a pointer in
    the last three bytes below 2^64 is aligned by [align4_ptr] to the NULL
    address, and one in the last seven bytes is aligned by [align8_ptr] to
    the NULL address, which lies below the pointer. *)
Theorem align_ptr_wraps_to_null (p q : Z) :
  2 ^ 64 - 4 < p < 2 ^ 64 ->
  2 ^ 64 - 8 < q < 2 ^ 64 ->
  align4_ptr p = 0 /\ align8_ptr q = 0.
Proof.
  intros Hp Hq.
  assert (2 ^ 64 = 18446744073709551616) as E64 by reflexivity.
  split.
  - rewrite align4_ptr_eq. unfold wrap64.
    assert ((p + 3) mod 2 ^ 64 = p + 3 - 2 ^ 64) as ->.
    { symmetry. apply (Z.mod_unique_pos _ _ 1); lia. }
    rewrite Z.mod_small by lia. lia.
  - rewrite align8_ptr_eq. unfold wrap64.
    assert ((q + 7) mod 2 ^ 64 = q + 7 - 2 ^ 64) as ->.
    { symmetry. apply (Z.mod_unique_pos _ _ 1); lia. }
    rewrite Z.mod_small by lia. lia.
Qed.

Lemma align_ptr_wraps_to_null_witness :
  align4_ptr (2 ^ 64 - 1) = 0 /\ align8_ptr (2 ^ 64 - 5) = 0.
Proof.
  apply (align_ptr_wraps_to_null (2 ^ 64 - 1) (2 ^ 64 - 5));
    vm_compute; split; reflexivity.
Defined.

(** ** The two header tests *)

(** X4.  On the 16 bytes of a reset vector, [reset_vector_empty] answers
    true exactly when every byte is zero, and false exactly when some byte
    is not. *)
Theorem reset_vector_empty_iff_all_zero (buf : list byte) :
  length buf = RESET_VECTOR_SIZE ->
  (reset_vector_empty buf = true <-> Forall (fun b => b = x00) buf)
  /\ (reset_vector_empty buf = false <->
      exists i, (i < RESET_VECTOR_SIZE)%nat /\ nth i buf x00 <> x00).
Proof.
  intros Hl.
  assert (Hall : reset_vector_empty buf = true <->
                 (forall j, (j < RESET_VECTOR_SIZE)%nat -> nth j buf x00 = x00)).
  { unfold reset_vector_empty. rewrite Nat.eqb_eq.
    change RESET_VECTOR_SIZE with (0 + RESET_VECTOR_SIZE)%nat at 1 2.
    rewrite reset_vector_scan_all. split; intros H j Hj; apply H; lia. }
  split.
  - rewrite Hall, Forall_forall. split.
    + intros H b Hb. destruct (In_nth _ _ x00 Hb) as (j & Hj & <-).
      apply H. lia.
    + intros H j Hj. apply H. apply nth_In. lia.
  - split.
    + intros Hf.
      assert (Hscan : (reset_vector_scan buf 0 RESET_VECTOR_SIZE
                       < RESET_VECTOR_SIZE)%nat).
      { unfold reset_vector_empty in Hf. apply Nat.eqb_neq in Hf.
        pose proof (reset_vector_scan_le buf RESET_VECTOR_SIZE 0). lia. }
      destruct (Forall_Exists_dec (fun b => b = x00)
                  (fun b => Byte.byte_eq_dec b x00) buf) as [Hz|Hnz].
      * exfalso. rewrite Forall_forall in Hz.
        assert (reset_vector_empty buf = true); [|congruence].
        apply Hall. intros j Hj. apply Hz. apply nth_In. lia.
      * apply Exists_exists in Hnz. destruct Hnz as (b & Hb & Hne).
        destruct (In_nth _ _ x00 Hb) as (j & Hj & <-).
        exists j. split; [lia | exact Hne].
    + intros (i & Hi & Hne).
      destruct (reset_vector_empty buf) eqn:E; [|reflexivity].
      exfalso. apply Hne. apply Hall; [reflexivity | exact Hi].
Qed.

Lemma reset_vector_empty_iff_all_zero_witness :
  (reset_vector_empty (xea :: zeros 15) = true <->
   Forall (fun b => b = x00) (xea :: zeros 15))
  /\ (reset_vector_empty (xea :: zeros 15) = false <->
      exists i, (i < RESET_VECTOR_SIZE)%nat
                /\ nth i (xea :: zeros 15) x00 <> x00).
Proof.
  apply (reset_vector_empty_iff_all_zero (xea :: zeros 15)). reflexivity.
Defined.

(** X5.  When the two bytes of the TE signature field lie inside the blob,
    [check_te_sign] answers true exactly when they are 'V' and 'Z' in this
    order: comparing the 16-bit values is comparing the bytes. *)
Theorem check_te_sign_iff_vz (base : Z) (img : list byte) (o : Z) :
  0 <= o -> o + 2 <= img_len img ->
  exists b,
    check_te_sign (mk_blob base img) (base + o) = Ret b
    /\ (b = true <-> slice img (Z.to_nat o) 2 = [x56; x5a]).
Proof.
  intros H0 H1. unfold check_te_sign, te.sign.
  rewrite <- Z.add_assoc, Z.add_0_r, load16_blob by lia. cbn [bind].
  eexists. split; [reflexivity|].
  rewrite Z.eqb_eq. unfold field. split.
  - intros H. apply le_val_inj in H; [exact H|].
    rewrite slice_length by (unfold img_len in H1; lia). reflexivity.
  - intros ->. reflexivity.
Qed.

Lemma check_te_sign_iff_vz_witness :
  exists b,
    check_te_sign (mk_blob 0x7f0000001000 (sample_image 0))
      (0x7f0000001000 + 124) = Ret b
    /\ (b = true <-> slice (sample_image 0) (Z.to_nat 124) 2 = [x56; x5a]).
Proof.
  apply (check_te_sign_iff_vz 0x7f0000001000 (sample_image 0) 124).
  - lia.
  - vm_compute. discriminate.
Defined.

(** ** The runs of the probe

    Whatever the file holds, a probe that opens it ends in one of five
    ways. *)

Lemma probe_runs (fuel : nat) (wd : world) (path : string)
    (contents : list byte) (st : state) :
  w_open wd path = Some contents ->
  let r := efi_probe_firmware fuel wd (Some path) st in
  (fst r = Ret 0
   /\ st_trace (snd r) = st_trace st ++ header_trace path ++ [EvClose])
  \/ (fst r = Ret EFI_INVALID_ENTRY_POINT /\ w_heap wd = 0
      /\ st_trace (snd r)
         = st_trace st ++ header_trace path
           ++ [EvLseek 0 SEEK_END; EvMalloc (img_len contents); EvClose])
  \/ (fst r = Ret EFI_INVALID_ENTRY_POINT /\ w_heap wd <> 0
      /\ w_read_error wd (S (st_reads st)) = true
      /\ st_trace (snd r)
         = st_trace st ++ load_trace path contents ++ [EvFree; EvClose])
  \/ (exists e,
        fst r = Ret e /\ w_heap wd <> 0
        /\ get_entry_point fuel (mk_blob (w_heap wd) contents)
             (decode_fv_hdr (firstn fv.sizeof contents)) = Ret e
        /\ st_trace (snd r)
           = st_trace st ++ load_trace path contents
             ++ [rom_event contents; EvFree; EvClose])
  \/ ((fst r = OutOfFuel \/ exists a, fst r = OutOfBounds a)
      /\ w_heap wd <> 0
      /\ get_entry_point fuel (mk_blob (w_heap wd) contents)
           (decode_fv_hdr (firstn fv.sizeof contents)) = fst r
      /\ st_trace (snd r) = st_trace st ++ load_trace path contents).
Proof.
  intros Ho r. subst r. unfold efi_probe_firmware. rewrite Ho.
  cbn [sys_lseek emit st_trace st_pos st_reads].
  destruct (w_read_error wd (st_reads st)) eqn:E1.
  { left. unfold sys_read. cbn [st_reads st_trace st_pos]. rewrite E1.
    replace (-1 =? Z.of_nat fv.sizeof) with false by reflexivity.
    cbn [negb fst snd emit st_trace]. split; [reflexivity|].
    unfold header_trace. rewrite <- !app_assoc. reflexivity. }
  destruct (le_lt_dec fv.sizeof (length contents)) as [Hl|Hl].
  2:{ left.
      match goal with
      | |- context [sys_read wd contents ?n ?s] =>
          destruct (header_read_short wd contents s eq_refl (or_intror Hl))
            as (n' & data & s' & -> & Ht & Hn)
      end.
      apply Z.eqb_neq in Hn. rewrite Hn. cbn [negb fst snd emit st_trace].
      split; [reflexivity|]. rewrite Ht. cbn [st_trace].
      unfold header_trace. rewrite <- !app_assoc. reflexivity. }
  rewrite header_read_ok by (try reflexivity; assumption).
  rewrite Z.eqb_refl. cbn [negb].
  destruct (negb (fv_sign (decode_fv_hdr (firstn fv.sizeof contents))
                  =? le_val FV_SIGNATURE)).
  { left. cbn [fst snd emit st_trace]. split; [reflexivity|].
    unfold header_trace. rewrite <- !app_assoc. reflexivity. }
  destruct (negb (reset_vector_empty
                    (reset_vector (decode_fv_hdr (firstn fv.sizeof contents))))).
  { left. cbn [fst snd emit st_trace]. split; [reflexivity|].
    unfold header_trace. rewrite <- !app_assoc. reflexivity. }
  unfold load_firmware, g_malloc.
  assert (Hnz : (Z.of_nat (length contents) =? 0) = false).
  { apply Z.eqb_neq. unfold fv.sizeof in Hl. lia. }
  rewrite Hnz.
  destruct (w_heap wd =? 0) eqn:Eh.
  { right. left. apply Z.eqb_eq in Eh.
    cbn [fst snd emit st_trace]. split; [reflexivity|].
    split; [exact Eh|].
    unfold header_trace, img_len. rewrite <- !app_assoc. reflexivity. }
  apply Z.eqb_neq in Eh.
  cbn [sys_lseek emit st_trace st_pos st_reads].
  unfold sys_read. cbn [st_reads st_pos st_trace].
  destruct (w_read_error wd (S (st_reads st))) eqn:E2.
  { right. right. left.
    replace (-1 =? Z.of_nat (length contents)) with false
      by (symmetry; apply Z.eqb_neq; lia).
    cbn [negb fst snd emit st_trace].
    split; [reflexivity|]. split; [exact Eh|]. split; [reflexivity|].
    unfold load_trace. rewrite <- !app_assoc. reflexivity. }
  rewrite Nat2Z.id. cbn [Z.to_nat].
  rewrite !slice_all, Z.eqb_refl. cbn [negb].
  destruct (get_entry_point fuel (mk_blob (w_heap wd) contents)
              (decode_fv_hdr (firstn fv.sizeof contents))) as [e|a|] eqn:Eg.
  - right. right. right. left. exists e.
    cbn [fst snd emit st_trace].
    split; [reflexivity|]. split; [exact Eh|]. split; [reflexivity|].
    unfold load_trace, rom_event. rewrite <- !app_assoc. reflexivity.
  - right. right. right. right. cbn [fst snd st_trace].
    split; [right; exists a; reflexivity|].
    split; [exact Eh|]. split; [reflexivity|].
    unfold load_trace. rewrite <- !app_assoc. reflexivity.
  - right. right. right. right. cbn [fst snd st_trace].
    split; [left; reflexivity|].
    split; [exact Eh|]. split; [reflexivity|].
    unfold load_trace. rewrite <- !app_assoc. reflexivity.
Qed.

(** X6.  The ROM sink is called at most once per probe, never before the
    scan has returned a value, and always with the name "uefi", the whole
    contents of the file, their length and load address 0. *)
Theorem rom_sink_called_at_most_once (fuel : nat) (wd : world)
    (file : option string) (st : state) :
  let r := efi_probe_firmware fuel wd file st in
  rom_calls (st_trace (snd r)) = rom_calls (st_trace st)
  \/ exists path contents e,
       file = Some path /\ w_open wd path = Some contents
       /\ get_entry_point fuel (mk_blob (w_heap wd) contents)
            (decode_fv_hdr (firstn fv.sizeof contents)) = Ret e
       /\ fst r = Ret e
       /\ rom_calls (st_trace (snd r))
          = rom_calls (st_trace st)
            ++ [EvRomAddBlobFixed "uefi" contents (img_len contents) 0].
Proof.
  intros r. subst r. destruct file as [path|]; [|left; reflexivity].
  destruct (w_open wd path) as [contents|] eqn:Ho.
  2:{ left. unfold efi_probe_firmware. rewrite Ho. cbn [snd emit st_trace].
      rewrite rom_calls_app. cbn. apply app_nil_r. }
  destruct (probe_runs fuel wd path contents st Ho)
    as [(_ & Ht) | [(_ & _ & Ht) | [(_ & _ & _ & Ht)
       | [(e & Hr & _ & Hg & Ht) | (_ & _ & _ & Ht)]]]].
  - left. rewrite Ht, rom_calls_app. cbn. apply app_nil_r.
  - left. rewrite Ht, rom_calls_app. cbn. apply app_nil_r.
  - left. rewrite Ht, rom_calls_app. cbn. apply app_nil_r.
  - right. exists path, contents, e.
    split; [reflexivity|]. split; [exact Ho|]. split; [exact Hg|].
    split; [exact Hr|]. rewrite Ht, rom_calls_app. reflexivity.
  - left. rewrite Ht, rom_calls_app. cbn. apply app_nil_r.
Qed.

(** X7.  A probe that returns has released what it acquired: the events it
    added hold one [close] if [open] succeeded and none otherwise, [close]
    is then the last event, and the whole-file buffer, when one was
    allocated, was freed exactly once. *)
Theorem returned_probe_releases_resources (fuel : nat) (wd : world)
    (file : option string) (st : state) (e : Z) :
  fst (efi_probe_firmware fuel wd file st) = Ret e ->
  exists added,
    st_trace (snd (efi_probe_firmware fuel wd file st)) = st_trace st ++ added
    /\ count is_close added
       = match file with
         | Some path =>
             match w_open wd path with
             | Some _ => 1%nat
             | None => 0%nat
             end
         | None => 0%nat
         end
    /\ (count is_close added = 1%nat -> last added EvFree = EvClose)
    /\ (count is_malloc added <= 1)%nat
    /\ count is_free added
       = (if w_heap wd =? 0 then 0%nat else count is_malloc added).
Proof.
  intros Hret. destruct file as [path|].
  2:{ exists []. cbn. rewrite app_nil_r.
      repeat split; try reflexivity; try lia.
      destruct (w_heap wd =? 0); reflexivity. }
  destruct (w_open wd path) as [contents|] eqn:Ho.
  2:{ exists [EvOpen path]. unfold efi_probe_firmware. rewrite Ho.
      cbn. repeat split; try reflexivity; try lia.
      destruct (w_heap wd =? 0); reflexivity. }
  destruct (probe_runs fuel wd path contents st Ho)
    as [(_ & Ht) | [(_ & Hh & Ht) | [(_ & Hh & _ & Ht)
       | [(e' & _ & Hh & _ & Ht) | ([Hr|(a & Hr)] & _)]]]];
    try congruence.
  - eexists. split; [exact Ht|]. cbn.
    repeat split; try reflexivity; try lia.
    destruct (w_heap wd =? 0); reflexivity.
  - eexists. split; [exact Ht|]. rewrite Hh. cbn.
    repeat split; try reflexivity; lia.
  - eexists. split; [exact Ht|]. apply Z.eqb_neq in Hh. rewrite Hh. cbn.
    repeat split; try reflexivity; lia.
  - eexists. split; [exact Ht|]. apply Z.eqb_neq in Hh. rewrite Hh. cbn.
    repeat split; try reflexivity; lia.
Qed.

Lemma returned_probe_releases_resources_witness :
  exists added,
    st_trace (snd (efi_probe_firmware 8 (sample_world (sample_image 0x100))
                     (Some "fw.fd"%string) init_state))
    = st_trace init_state ++ added
    /\ count is_close added
       = match w_open (sample_world (sample_image 0x100)) "fw.fd" with
         | Some _ => 1%nat
         | None => 0%nat
         end
    /\ (count is_close added = 1%nat -> last added EvFree = EvClose)
    /\ (count is_malloc added <= 1)%nat
    /\ count is_free added
       = (if w_heap (sample_world (sample_image 0x100)) =? 0
          then 0%nat else count is_malloc added).
Proof.
  apply (returned_probe_releases_resources 8
           (sample_world (sample_image 0x100)) (Some "fw.fd"%string)
           init_state 0x100).
  vm_compute. reflexivity.
Defined.

(** ** The values the probe returns *)

Lemma load8_value (m : blob_t) (a v : Z) :
  load8 m a = Ret v -> 0 <= v < 256.
Proof.
  unfold load8. destruct (in_blob m a); [|discriminate].
  intros [= <-]. apply b2z_range.
Qed.

Lemma load32_value (m : blob_t) (a v : Z) :
  load32 m a = Ret v -> 0 <= v < 2 ^ 32.
Proof.
  unfold load32.
  destruct (load8 m a) as [b0| |] eqn:E0; cbn [bind]; try discriminate.
  destruct (load8 m (a + 1)) as [b1| |] eqn:E1; cbn [bind]; try discriminate.
  destruct (load8 m (a + 2)) as [b2| |] eqn:E2; cbn [bind]; try discriminate.
  destruct (load8 m (a + 3)) as [b3| |] eqn:E3; cbn [bind]; try discriminate.
  intros H.
  assert (v = b0 + 256 * b1 + 65536 * b2 + 16777216 * b3) as ->
    by congruence.
  apply load8_value in E0, E1, E2, E3.
  change (2 ^ 32) with 4294967296. lia.
Qed.

Lemma sect_loop_value (fuel : nat) (m : blob_t) (ptr end_ v : Z) :
  sect_loop fuel m ptr end_ = Ret v -> 0 <= v < 2 ^ 32.
Proof.
  revert ptr. induction fuel as [|fuel IH]; intros ptr; cbn [sect_loop];
    [discriminate|].
  destruct (ptr <? end_); [|intros [= <-]; vm_compute; split; congruence].
  destruct (load8 m (ptr + sect.type)) as [t| |]; cbn [bind]; try discriminate.
  cbn [bind]. destruct (negb (t =? SECTION_TE)).
  - destruct (load_size m (ptr + sect.size)) as [sz| |]; cbn [bind]; try discriminate.
    cbn [bind]. apply IH.
  - destruct (check_te_sign m (ptr + sect.sizeof)) as [ok| |];
      cbn [bind]; try discriminate.
    cbn [bind]. destruct (negb ok).
    + intros [= <-]. vm_compute. split; congruence.
    + apply load32_value.
Qed.

Lemma file_loop_value (fuel sfuel : nat) (m : blob_t) (ptr end_ v : Z) :
  file_loop fuel sfuel m ptr end_ = Ret v -> 0 <= v < 2 ^ 32.
Proof.
  revert ptr. induction fuel as [|fuel IH]; intros ptr; cbn [file_loop];
    [discriminate|].
  destruct (ptr <? end_); [|intros [= <-]; vm_compute; split; congruence].
  destruct (load8 m (ptr + file.type)) as [t| |]; cbn [bind]; try discriminate.
  cbn [bind]. destruct (t =? SECURITY_CORE).
  - unfold get_sec_entry_point.
    destruct (load_size m (ptr + file.size)) as [sz| |]; cbn [bind]; try discriminate.
    cbn [bind]. apply sect_loop_value.
  - destruct (load_size m (ptr + file.size)) as [sz| |]; cbn [bind]; try discriminate.
    cbn [bind]. apply IH.
Qed.

(** Every value the probe returns fits in 32 bits, whatever the path, the
    file and the outcome of the system calls. *)
Theorem probe_result_fits_32_bits (fuel : nat) (wd : world)
    (file : option string) (st : state) :
  match fst (efi_probe_firmware fuel wd file st) with
  | Ret e => 0 <= e < 2 ^ 32
  | _ => True
  end.
Proof.
  assert (Hs : 0 <= EFI_INVALID_ENTRY_POINT < 2 ^ 32)
    by (vm_compute; split; congruence).
  assert (Hz : 0 <= 0 < 2 ^ 32) by (vm_compute; split; congruence).
  destruct file as [path|]; [|exact Hs].
  destruct (w_open wd path) as [contents|] eqn:Ho.
  2:{ unfold efi_probe_firmware. rewrite Ho. exact Hs. }
  destruct (probe_runs fuel wd path contents st Ho)
    as [(-> & _) | [(-> & _) | [(-> & _)
       | [(e & -> & _ & Hg & _) | ([->|(a & ->)] & _)]]]];
    try assumption; try exact I.
  unfold get_entry_point in Hg. apply file_loop_value in Hg. exact Hg.
Qed.

(** ** Failure of the whole-file read *)



(** ** The first match decides *)

(** On an image whose entries lead to a TE section, the scan comes down to
    one iteration of the section loop at that section. *)
Lemma get_entry_point_at_te (base : Z) (img : list byte) (f s : Z) :
  heap_ok base (img_len img) ->
  (fv.sizeof <= length img)%nat ->
  img_fv_len img <= img_len img ->
  files_reach img (img_fv_len img) (round_up 8 (img_hdr_len img)) f ->
  f + entry_size img (f + file.size) <= img_fv_len img ->
  sects_reach img (f + entry_size img (f + file.size))
    (round_up 4 (f + file.sizeof)) s ->
  exists n, forall fuel, (n <= fuel)%nat ->
    exists k,
      get_entry_point fuel (mk_blob base img)
        (decode_fv_hdr (firstn fv.sizeof img))
      = sect_loop (S k) (mk_blob base img) (base + s)
          (base + (f + file.sizeof) + entry_size img (f + file.size)).
Proof.
  intros Hheap Hlen Hvol Hfiles Hfile Hsects.
  pose proof (files_reach_bounds _ _ _ _ Hfiles) as (Hf0 & Hf1 & Hf2 & _).
  pose proof (sects_reach_bounds _ _ _ _ Hsects) as (Hb0 & Hb1 & Hb2 & _).
  destruct (decode_fv_hdr_fields img Hlen) as [Efv Ehdr].
  pose proof (field_range img (Z.of_nat fv.hdr_len) 2) as Hhl.
  pose proof (field_range img (Z.of_nat fv.fv_len) 8) as Hfl.
  fold (img_hdr_len img) in Hhl. fold (img_fv_len img) in Hfl.
  change (256 ^ Z.of_nat 2) with 65536 in Hhl.
  pose proof (entry_size_range img (f + file.size)) as Hsz.
  pose proof (round_up_spec 4 (f + file.sizeof) ltac:(lia)) as Hru.
  pose proof Hheap as (Hh0 & Hh1 & Hh2).
  change (2 ^ 17) with 131072 in Hh2.
  assert (2 ^ 64 = 18446744073709551616) as E64 by reflexivity.
  unfold file.sizeof, file.size, sect.sizeof in *.
  destruct (file_loop_reach base img Hheap (img_fv_len img)
              (base + img_hdr_len img + img_fv_len img) _ _
              Hvol ltac:(lia) Hfiles) as [n1 Hn1].
  destruct (sect_loop_reach base img Hheap
              (f + entry_size img (f + 20))
              (base + (f + 24) + entry_size img (f + 20)) _ _
              ltac:(lia) ltac:(lia) Hsects) as [n2 Hn2].
  exists (Nat.max n1 (S n2)). intros fuel Hfuel.
  exists (fuel - S n2)%nat.
  unfold get_entry_point. cbn [blob_base]. rewrite Efv, Ehdr.
  rewrite (align8_ptr_blob base img)
    by (try exact Hheap; change (2 ^ 16) with 65536; lia).
  rewrite (wrap64_small (base + img_hdr_len img)) by lia.
  rewrite wrap64_small by lia.
  rewrite Hn1 by lia.
  unfold get_sec_entry_point, file.sizeof, file.size.
  rewrite <- !Z.add_assoc, load_size_blob by lia. cbn [bind].
  rewrite (align4_ptr_blob base img)
    by (try exact Hheap; change (2 ^ 16) with 65536; lia).
  rewrite (wrap64_small (base + (f + 24))) by lia.
  rewrite wrap64_small by lia.
  replace fuel with (n2 + S (fuel - S n2))%nat at 1 by lia.
  rewrite Hn2. rewrite !Z.add_assoc. reflexivity.
Qed.

(** At a TE section whose signature is not "VZ" the loop gives up. *)
Lemma sect_loop_bad_te (base : Z) (img : list byte) (fuel : nat)
    (end_ s : Z) :
  0 <= s -> base + s < end_ ->
  s + sect.sizeof + 2 <= img_len img ->
  byte_at img (s + sect.type) = SECTION_TE ->
  slice img (Z.to_nat (s + sect.sizeof + te.sign)) 2 <> TE_SIGNATURE ->
  sect_loop (S fuel) (mk_blob base img) (base + s) end_
  = Ret EFI_INVALID_ENTRY_POINT.
Proof.
  intros H0 Hlt Hin Ht Hs.
  unfold sect.sizeof, sect.type, te.sign in *.
  cbn [sect_loop].
  replace (base + s <? end_) with true by (symmetry; apply Z.ltb_lt; lia).
  unfold sect.type, sect.sizeof, check_te_sign, te.sign.
  rewrite <- !Z.add_assoc, load8_blob by lia. cbn [bind].
  rewrite Ht. cbn [Z.eqb Pos.eqb SECTION_TE negb].
  rewrite load16_blob by lia. cbn [bind].
  rewrite <- Z.add_assoc in Hs.
  replace (field img (s + (4 + 0)) 2 =? le_val TE_SIGNATURE) with false;
    [reflexivity|].
  symmetry. apply Z.eqb_neq. intros E. apply Hs.
  unfold field in E. apply le_val_inj in E; [exact E|].
  rewrite slice_length by (unfold img_len in Hin; lia). reflexivity.
Qed.

(** X10.  When the entries lead to a TE section whose signature is not
    "VZ", the probe returns the sentinel 0xFFFFFFFF, whatever follows that
    section; the blob has been handed to the ROM sink all the same. *)
Theorem bad_te_signature_returns_sentinel (wd : world) (path : string)
    (img : list byte) (st : state) (f s : Z) :
  w_open wd path = Some img ->
  w_read_error wd (st_reads st) = false ->
  w_read_error wd (S (st_reads st)) = false ->
  heap_ok (w_heap wd) (img_len img) ->
  header_accepted img ->
  img_fv_len img <= img_len img ->
  files_reach img (img_fv_len img) (round_up 8 (img_hdr_len img)) f ->
  f + entry_size img (f + file.size) <= img_fv_len img ->
  sects_reach img (f + entry_size img (f + file.size))
    (round_up 4 (f + file.sizeof)) s ->
  s + sect.sizeof + 2 <= img_len img ->
  slice img (Z.to_nat (s + sect.sizeof + te.sign)) 2 <> TE_SIGNATURE ->
  exists n, forall fuel, (n <= fuel)%nat ->
    fst (efi_probe_firmware fuel wd (Some path) st) = Ret 0xFFFFFFFF
    /\ rom_calls (st_trace (snd (efi_probe_firmware fuel wd (Some path) st)))
       = rom_calls (st_trace st)
         ++ [EvRomAddBlobFixed "uefi" img (img_len img) 0].
Proof.
  intros Ho He1 He2 Hheap Hhdr Hvol Hfiles Hfile Hsects Hin Hsig.
  pose proof (sects_reach_bounds _ _ _ _ Hsects) as (Hb0 & Hb1 & Hb2 & Hb3).
  pose proof (files_reach_bounds _ _ _ _ Hfiles) as (Hf0 & Hf1 & _).
  pose proof (round_up_spec 4 (f + file.sizeof) ltac:(lia)) as Hru.
  destruct (get_entry_point_at_te (w_heap wd) img f s Hheap
              ltac:(apply Hhdr) Hvol Hfiles Hfile Hsects) as [n Hn].
  exists n. intros fuel Hfuel. destruct (Hn fuel Hfuel) as [k Hk].
  destruct (probe_reaches_scan fuel wd path img st Ho He1 He2)
    as (st1 & Ht & ->); [destruct Hheap; lia | exact Hhdr |].
  rewrite Hk, sect_loop_bad_te; try assumption.
  - cbn [fst snd emit st_trace]. split; [reflexivity|].
    rewrite Ht, !rom_calls_app. cbn. rewrite !app_nil_r. reflexivity.
  - lia.
  - unfold file.sizeof, sect.sizeof in *. lia.
Qed.

Lemma bad_te_signature_returns_sentinel_witness :
  exists n, forall fuel, (n <= fuel)%nat ->
    fst (efi_probe_firmware fuel (sample_world bad_te_image)
           (Some "fw.fd"%string) init_state) = Ret 0xFFFFFFFF
    /\ rom_calls (st_trace (snd (efi_probe_firmware fuel
                                   (sample_world bad_te_image)
                                   (Some "fw.fd"%string) init_state)))
       = rom_calls (st_trace init_state)
         ++ [EvRomAddBlobFixed "uefi" bad_te_image (img_len bad_te_image) 0].
Proof.
  apply (bad_te_signature_returns_sentinel (sample_world bad_te_image)
           "fw.fd" bad_te_image init_state 88 120).
  - reflexivity.
  - reflexivity.
  - reflexivity.
  - apply sample_heap_ok. vm_compute. discriminate.
  - repeat split; closed.
  - closed.
  - change (round_up 8 (img_hdr_len bad_te_image)) with 56.
    change (img_fv_len bad_te_image) with 156.
    apply files_reach_skip; [closed | closed | closed |].
    change (round_up 8 (56 + entry_size bad_te_image (56 + file.size)))
      with 88.
    apply files_reach_here; closed.
  - closed.
  - change (88 + entry_size bad_te_image (88 + file.size)) with 156.
    change (round_up 4 (88 + file.sizeof)) with 112.
    apply sects_reach_skip; [closed | closed | closed |].
    change (round_up 4 (112 + entry_size bad_te_image (112 + sect.size)))
      with 120.
    apply sects_reach_here; closed.
  - closed.
  - vm_compute. discriminate.
Defined.

Lemma sect_loop_exhausted (base : Z) (img : list byte) (e o : Z) :
  heap_ok base (img_len img) ->
  sects_exhausted img e o ->
  exists n, forall fuel, (n <= fuel)%nat ->
    sect_loop fuel (mk_blob base img) (base + o) (base + e)
    = Ret EFI_INVALID_ENTRY_POINT.
Proof.
  intros Hheap Hx.
  induction Hx as [o H | o H0 H1 H2 Ht Hr IH].
  - exists 1%nat. intros [|fuel] Hf; [lia|].
    cbn [sect_loop].
    replace (base + o <? base + e) with false
      by (symmetry; apply Z.ltb_ge; lia).
    reflexivity.
  - destruct IH as [n IH]. exists (S n). intros [|fuel] Hf; [lia|].
    unfold sect.sizeof, sect.type, sect.size in *.
    cbn [sect_loop].
    replace (base + o <? base + e) with true
      by (symmetry; apply Z.ltb_lt; lia).
    unfold sect.type, sect.size.
    rewrite <- !Z.add_assoc, load8_blob by lia. cbn [bind].
    apply Z.eqb_neq in Ht. rewrite Ht. cbn [negb].
    rewrite load_size_blob by lia. cbn [bind].
    pose proof (entry_size_range img (o + 0)).
    rewrite <- Z.add_assoc, (align4_ptr_blob base img)
      by (try exact Hheap; change (2 ^ 16) with 65536; lia).
    apply IH. lia.
Qed.

(** The probe on a file whose entries lead to a Security-Core file, when the
    section loop of that file leaves its range without meeting a TE
    section. *)
Lemma probe_sects_exhausted (wd : world) (path : string)
    (img : list byte) (st : state) (f : Z) :
  w_open wd path = Some img ->
  w_read_error wd (st_reads st) = false ->
  w_read_error wd (S (st_reads st)) = false ->
  heap_ok (w_heap wd) (img_len img) ->
  header_accepted img ->
  img_fv_len img <= img_len img ->
  files_reach img (img_fv_len img) (round_up 8 (img_hdr_len img)) f ->
  sects_exhausted img (f + file.sizeof + entry_size img (f + file.size))
    (round_up 4 (f + file.sizeof)) ->
  exists n, forall fuel, (n <= fuel)%nat ->
    fst (efi_probe_firmware fuel wd (Some path) st) = Ret 0xFFFFFFFF
    /\ rom_calls (st_trace (snd (efi_probe_firmware fuel wd (Some path) st)))
       = rom_calls (st_trace st)
         ++ [EvRomAddBlobFixed "uefi" img (img_len img) 0].
Proof.
  intros Ho He1 He2 Hheap Hhdr Hvol Hfiles Hx.
  pose proof (files_reach_bounds _ _ _ _ Hfiles) as (Hf0 & Hf1 & Hf2 & _).
  assert (Hlen : (fv.sizeof <= length img)%nat) by apply Hhdr.
  destruct (decode_fv_hdr_fields img Hlen) as [Efv Ehdr].
  pose proof (field_range img (Z.of_nat fv.hdr_len) 2) as Hhl.
  pose proof (field_range img (Z.of_nat fv.fv_len) 8) as Hfl.
  fold (img_hdr_len img) in Hhl. fold (img_fv_len img) in Hfl.
  change (256 ^ Z.of_nat 2) with 65536 in Hhl.
  pose proof (entry_size_range img (f + file.size)) as Hsz.
  pose proof Hheap as (Hh0 & Hh1 & Hh2).
  change (2 ^ 17) with 131072 in Hh2.
  assert (2 ^ 64 = 18446744073709551616) as E64 by reflexivity.
  unfold file.sizeof, file.size in *.
  destruct (file_loop_reach (w_heap wd) img Hheap (img_fv_len img)
              (w_heap wd + img_hdr_len img + img_fv_len img) _ _
              Hvol ltac:(lia) Hfiles) as [n1 Hn1].
  destruct (sect_loop_exhausted (w_heap wd) img _ _ Hheap Hx) as [n2 Hn2].
  exists (Nat.max n1 n2). intros fuel Hfuel.
  destruct (probe_reaches_scan fuel wd path img st Ho He1 He2)
    as (st1 & Ht & ->); [lia | exact Hhdr |].
  assert (Hscan : get_entry_point fuel (mk_blob (w_heap wd) img)
                    (decode_fv_hdr (firstn fv.sizeof img))
                  = Ret EFI_INVALID_ENTRY_POINT).
  { unfold get_entry_point. cbn [blob_base]. rewrite Efv, Ehdr.
    rewrite (align8_ptr_blob (w_heap wd) img)
      by (try exact Hheap; change (2 ^ 16) with 65536; lia).
    rewrite (wrap64_small (w_heap wd + img_hdr_len img)) by lia.
    rewrite wrap64_small by lia.
    rewrite Hn1 by lia.
    unfold get_sec_entry_point, file.sizeof, file.size.
    rewrite <- !Z.add_assoc, load_size_blob by lia. cbn [bind].
    rewrite (align4_ptr_blob (w_heap wd) img)
      by (try exact Hheap; change (2 ^ 16) with 65536; lia).
    rewrite (wrap64_small (w_heap wd + (f + 24))) by lia.
    rewrite wrap64_small by lia.
    rewrite <- !Z.add_assoc. rewrite (Z.add_assoc f 24).
    apply Hn2. lia. }
  rewrite Hscan. cbn [fst snd emit st_trace]. split; [reflexivity|].
  rewrite Ht, !rom_calls_app. cbn. rewrite !app_nil_r. reflexivity.
Qed.

(** The first bytes of a file are read the same whatever follows them. *)
Lemma slice_app_l (P X : list byte) (i n : nat) :
  (i + n <= length P)%nat -> slice (P ++ X) i n = slice P i n.
Proof.
  intros H. unfold slice. rewrite skipn_app, firstn_app, length_skipn.
  replace (n - (length P - i))%nat with 0%nat by lia.
  cbn [firstn]. apply app_nil_r.
Qed.

Lemma field_app_l (P X : list byte) (o : Z) (n : nat) :
  0 <= o -> o + Z.of_nat n <= img_len P -> field (P ++ X) o n = field P o n.
Proof.
  intros H0 H1. unfold field, img_len in *.
  rewrite slice_app_l by lia. reflexivity.
Qed.

Lemma byte_at_app_l (P X : list byte) (o : Z) :
  0 <= o < img_len P -> byte_at (P ++ X) o = byte_at P o.
Proof.
  intros H. unfold byte_at, img_len in *. rewrite app_nth1 by lia.
  reflexivity.
Qed.

Lemma entry_size_app_l (P X : list byte) (o : Z) :
  0 <= o -> o + 3 <= img_len P -> entry_size (P ++ X) o = entry_size P o.
Proof.
  intros H0 H1. unfold entry_size. rewrite field_app_l by (cbn; lia).
  reflexivity.
Qed.

Lemma header_accepted_app (P X : list byte) :
  header_accepted P ->
  header_accepted (P ++ X)
  /\ img_hdr_len (P ++ X) = img_hdr_len P
  /\ img_fv_len (P ++ X) = img_fv_len P.
Proof.
  intros (Hl & Hs & Hr).
  assert (H56 : 56 <= img_len P)
    by (unfold img_len; change 56 with (Z.of_nat fv.sizeof); lia).
  split; [split; [|split]|split].
  - rewrite length_app. lia.
  - rewrite slice_app_l; [exact Hs|].
    change (fv.sign + 4)%nat with 44%nat. unfold img_len in H56. lia.
  - rewrite slice_app_l; [exact Hr|].
    change (fv.reset_vector + RESET_VECTOR_SIZE)%nat with 16%nat.
    unfold img_len in H56. lia.
  - unfold img_hdr_len. apply field_app_l; [cbn; lia|].
    change (Z.of_nat fv.hdr_len + Z.of_nat 2) with 50. lia.
  - unfold img_fv_len. apply field_app_l; [cbn; lia|].
    change (Z.of_nat fv.fv_len + Z.of_nat 8) with 40. lia.
Qed.

Lemma files_reach_app (P X : list byte) (e o f : Z) :
  files_reach P e o f -> f + file.sizeof <= img_len P ->
  files_reach (P ++ X) e o f.
Proof.
  induction 1 as [o H0 H1 Ht | o f H0 H1 Ht Hr IH]; intros Hf.
  - apply files_reach_here; [exact H0 | exact H1 |].
    rewrite byte_at_app_l by (unfold file.sizeof, file.type in *; lia).
    exact Ht.
  - pose proof (files_reach_bounds _ _ _ _ Hr) as (_ & Hle & _).
    pose proof (entry_size_range P (o + file.size)) as Hsz.
    pose proof (round_up_spec 8 (o + entry_size P (o + file.size))
                  ltac:(lia)) as [Hru _].
    apply files_reach_skip; [exact H0 | exact H1 | |].
    + rewrite byte_at_app_l by (unfold file.sizeof, file.type in *; lia).
      exact Ht.
    + rewrite entry_size_app_l
        by (unfold file.sizeof, file.size in *; lia).
      apply IH. exact Hf.
Qed.

Lemma sects_exhausted_app (P X : list byte) (e o : Z) :
  sects_exhausted P e o -> sects_exhausted (P ++ X) e o.
Proof.
  induction 1 as [o H | o H0 H1 H2 Ht Hr IH].
  - apply sects_exhausted_done. exact H.
  - pose proof (img_len_nonneg X) as HX.
    apply sects_exhausted_skip; [exact H0 | exact H1 | | |].
    + rewrite img_len_app. lia.
    + rewrite byte_at_app_l by (unfold sect.sizeof, sect.type in *; lia).
      exact Ht.
    + rewrite entry_size_app_l
        by (unfold sect.sizeof, sect.size in *; lia).
      exact IH.
Qed.

(** X11.  The file loop hands the first Security-Core file to the section
    loop and never resumes.  Let the file be [pre ++ tail], where [pre]
    holds the accepted volume header, the file entries that lead to the
    first Security-Core file, at offset [f], and every section header that
    the section loop meets.  That loop runs over the offsets from [f + 24]
    to [f + 24 + size], which is 24 bytes past the end of the file entry.
    When every section header it meets there has another type than TE,
    until it leaves that range, the probe returns the sentinel 0xFFFFFFFF
    and hands the whole file to the ROM sink, whatever [tail] holds, a later
    Security-Core file with a valid TE image included. *)
Theorem first_security_core_file_decides (wd : world) (path : string)
    (pre tail : list byte) (st : state) (f : Z) :
  w_open wd path = Some (pre ++ tail) ->
  w_read_error wd (st_reads st) = false ->
  w_read_error wd (S (st_reads st)) = false ->
  heap_ok (w_heap wd) (img_len (pre ++ tail)) ->
  header_accepted pre ->
  img_fv_len pre <= img_len (pre ++ tail) ->
  files_reach pre (img_fv_len pre) (round_up 8 (img_hdr_len pre)) f ->
  f + file.sizeof <= img_len pre ->
  sects_exhausted pre (f + file.sizeof + entry_size pre (f + file.size))
    (round_up 4 (f + file.sizeof)) ->
  exists n, forall fuel, (n <= fuel)%nat ->
    fst (efi_probe_firmware fuel wd (Some path) st) = Ret 0xFFFFFFFF
    /\ rom_calls (st_trace (snd (efi_probe_firmware fuel wd (Some path) st)))
       = rom_calls (st_trace st)
         ++ [EvRomAddBlobFixed "uefi" (pre ++ tail)
               (img_len (pre ++ tail)) 0].
Proof.
  intros Ho He1 He2 Hheap Hhdr Hvol Hfiles Hf Hx.
  destruct (header_accepted_app pre tail Hhdr) as (Hhdr' & Ehl & Efl).
  pose proof (files_reach_bounds _ _ _ _ Hfiles) as (Hf0 & Hf1 & _).
  apply (probe_sects_exhausted wd path (pre ++ tail) st f Ho He1 He2 Hheap
           Hhdr').
  - rewrite Efl. exact Hvol.
  - rewrite Efl, Ehl. apply files_reach_app; assumption.
  - rewrite entry_size_app_l
      by (unfold file.sizeof, file.size in *; lia).
    apply sects_exhausted_app. exact Hx.
Qed.

Lemma first_security_core_file_decides_witness :
  exists n, forall fuel, (n <= fuel)%nat ->
    fst (efi_probe_firmware fuel
           (sample_world (later_sec_prefix ++ later_sec_tail))
           (Some "fw.fd"%string) init_state) = Ret 0xFFFFFFFF
    /\ rom_calls (st_trace (snd (efi_probe_firmware fuel
                     (sample_world (later_sec_prefix ++ later_sec_tail))
                     (Some "fw.fd"%string) init_state)))
       = rom_calls (st_trace init_state)
         ++ [EvRomAddBlobFixed "uefi" (later_sec_prefix ++ later_sec_tail)
               (img_len (later_sec_prefix ++ later_sec_tail)) 0].
Proof.
  apply (first_security_core_file_decides
           (sample_world (later_sec_prefix ++ later_sec_tail))
           "fw.fd" later_sec_prefix later_sec_tail init_state 56).
  - reflexivity.
  - reflexivity.
  - reflexivity.
  - apply sample_heap_ok. vm_compute. discriminate.
  - repeat split; closed.
  - closed.
  - change (round_up 8 (img_hdr_len later_sec_prefix)) with 56.
    change (img_fv_len later_sec_prefix) with 172.
    apply files_reach_here; closed.
  - closed.
  - change (56 + file.sizeof
            + entry_size later_sec_prefix (56 + file.size)) with 112.
    change (round_up 4 (56 + file.sizeof)) with 80.
    apply sects_exhausted_skip; [closed | closed | closed | closed |].
    change (round_up 4 (80 + entry_size later_sec_prefix (80 + sect.size)))
      with 88.
    apply sects_exhausted_skip; [closed | closed | closed | closed |].
    change (round_up 4 (88 + entry_size later_sec_prefix (88 + sect.size)))
      with 4184.
    apply sects_exhausted_done. closed.
Defined.

(** ** Termination *)

Lemma load8_not_out_of_fuel (m : blob_t) (a : Z) : load8 m a <> OutOfFuel.
Proof. unfold load8. destruct (in_blob m a); discriminate. Qed.

Lemma load8_in_blob (m : blob_t) (a v : Z) :
  load8 m a = Ret v -> blob_base m <= a < blob_base m + blob_len m.
Proof.
  unfold load8, in_blob.
  destruct (Z.leb_spec (blob_base m) a);
    destruct (Z.ltb_spec a (blob_base m + blob_len m)); cbn [andb];
    try discriminate.
  intros _. lia.
Qed.

Lemma load_size_inv (m : blob_t) (a sz : Z) :
  load_size m a = Ret sz ->
  0 <= sz < 4096
  /\ blob_base m <= a /\ a + 3 <= blob_base m + blob_len m.
Proof.
  unfold load_size.
  destruct (load8 m a) as [s0| |] eqn:E0; cbn [bind]; try discriminate.
  destruct (load8 m (a + 1)) as [s1| |] eqn:E1; cbn [bind]; try discriminate.
  destruct (load8 m (a + 2)) as [s2| |] eqn:E2; cbn [bind]; try discriminate.
  intros H. assert (sz = get_size s0 s1 s2) as -> by congruence.
  apply load8_in_blob in E0, E2.
  split; [apply get_size_range | lia].
Qed.

Lemma load_size_not_out_of_fuel (m : blob_t) (a : Z) :
  load_size m a <> OutOfFuel.
Proof.
  unfold load_size.
  destruct (load8 m a) as [s0| |] eqn:E0; cbn [bind]; try discriminate.
  2:{ exfalso. exact (load8_not_out_of_fuel _ _ E0). }
  destruct (load8 m (a + 1)) as [s1| |] eqn:E1; cbn [bind]; try discriminate.
  2:{ exfalso. exact (load8_not_out_of_fuel _ _ E1). }
  destruct (load8 m (a + 2)) as [s2| |] eqn:E2; cbn [bind]; try discriminate.
  exfalso. exact (load8_not_out_of_fuel _ _ E2).
Qed.

Lemma load16_not_out_of_fuel (m : blob_t) (a : Z) : load16 m a <> OutOfFuel.
Proof.
  unfold load16.
  destruct (load8 m a) as [s0| |] eqn:E0; cbn [bind]; try discriminate.
  2:{ exfalso. exact (load8_not_out_of_fuel _ _ E0). }
  destruct (load8 m (a + 1)) as [s1| |] eqn:E1; cbn [bind]; try discriminate.
  exfalso. exact (load8_not_out_of_fuel _ _ E1).
Qed.

Lemma load32_not_out_of_fuel (m : blob_t) (a : Z) : load32 m a <> OutOfFuel.
Proof.
  unfold load32.
  destruct (load8 m a) as [s0| |] eqn:E0; cbn [bind]; try discriminate.
  2:{ exfalso. exact (load8_not_out_of_fuel _ _ E0). }
  destruct (load8 m (a + 1)) as [s1| |] eqn:E1; cbn [bind]; try discriminate.
  2:{ exfalso. exact (load8_not_out_of_fuel _ _ E1). }
  destruct (load8 m (a + 2)) as [s2| |] eqn:E2; cbn [bind]; try discriminate.
  2:{ exfalso. exact (load8_not_out_of_fuel _ _ E2). }
  destruct (load8 m (a + 3)) as [s3| |] eqn:E3; cbn [bind]; try discriminate.
  exfalso. exact (load8_not_out_of_fuel _ _ E3).
Qed.

Section Termination.
Variable m : blob_t.
Variable lo : Z.
Hypothesis Hheap : heap_ok (blob_base m) (blob_len m).
Hypothesis Hlo : 0 <= lo.

(** No section of another type at a 4-aligned address from [lo] on decodes
    to size 0. *)
Hypothesis Hsect :
  forall q t, lo <= q -> q mod 4 = 0 ->
    load8 m (q + sect.type) = Ret t -> t <> SECTION_TE ->
    load_size m (q + sect.size) <> Ret 0.

Lemma sect_loop_terminates (fuel : nat) (q end_ : Z) :
  lo <= q -> q mod 4 = 0 ->
  (Z.to_nat ((end_ - q + 3) / 4) + 1 <= fuel)%nat ->
  sect_loop fuel m q end_ <> OutOfFuel.
Proof.
  destruct Hheap as (Hh0 & _ & Hh2).
  change (2 ^ 17) with 131072 in Hh2.
  assert (2 ^ 64 = 18446744073709551616) as E64 by reflexivity.
  revert q. induction fuel as [|fuel IH]; intros q Hq Hal Hfuel; [lia|].
  cbn [sect_loop]. destruct (Z.ltb_spec q end_) as [Hlt|Hge];
    [|discriminate].
  destruct (load8 m (q + sect.type)) as [t| |] eqn:Et; cbn [bind];
    try discriminate.
  2:{ exfalso. exact (load8_not_out_of_fuel _ _ Et). }
  destruct (Z.eqb_spec t SECTION_TE) as [Ete|Ene]; cbn [negb].
  - unfold check_te_sign.
    destruct (load16 m (q + sect.sizeof + te.sign)) as [sg| |] eqn:Es;
      cbn [bind]; try discriminate.
    + destruct (negb (sg =? le_val TE_SIGNATURE)); [discriminate|].
      apply load32_not_out_of_fuel.
    + exfalso. exact (load16_not_out_of_fuel _ _ Es).
  - destruct (load_size m (q + sect.size)) as [sz| |] eqn:Ez; cbn [bind];
      try discriminate.
    2:{ exfalso. exact (load_size_not_out_of_fuel _ _ Ez). }
    assert (sz <> 0) as Hnz.
    { intros ->. exact (Hsect q t Hq Hal Et Ene Ez). }
    apply load_size_inv in Ez. destruct Ez as (Hsz & Hb0 & Hb1).
    apply load8_in_blob in Et. unfold sect.type, sect.size in *.
    rewrite wrap64_small by lia.
    destruct (align4_ptr_spec (q + sz) ltac:(lia) ltac:(lia)) as [Hr Hm].
    apply IH.
    + lia.
    + exact Hm.
    + revert Hfuel Hr Hm Hal Hlt Hnz Hsz. generalize (align4_ptr (q + sz)).
      intros q' Hfuel Hr Hm Hal Hlt Hnz Hsz.
      assert (q + 4 <= q') by (Z.div_mod_to_equations; lia).
      assert ((end_ - q' + 3) / 4 <= (end_ - q + 3) / 4 - 1)
        by (Z.div_mod_to_equations; lia).
      assert (1 <= (end_ - q + 3) / 4) by (Z.div_mod_to_equations; lia).
      lia.
Qed.

Variable fend : Z.

(** No file entry of another type at an 8-aligned address in [lo, fend)
    decodes to size 0. *)
Hypothesis Hfile :
  forall p t, lo <= p < fend -> p mod 8 = 0 ->
    load8 m (p + file.type) = Ret t -> t <> SECURITY_CORE ->
    load_size m (p + file.size) <> Ret 0.

Lemma file_loop_terminates (fuel sfuel : nat) (p : Z) :
  lo <= p -> p mod 8 = 0 ->
  (Z.to_nat ((fend - p + 7) / 8) + 1 <= fuel)%nat ->
  (1025 <= sfuel)%nat ->
  file_loop fuel sfuel m p fend <> OutOfFuel.
Proof.
  destruct Hheap as (Hh0 & _ & Hh2).
  change (2 ^ 17) with 131072 in Hh2.
  assert (2 ^ 64 = 18446744073709551616) as E64 by reflexivity.
  intros Hp Hal Hfuel Hsf. revert p Hp Hal Hfuel.
  induction fuel as [|fuel IH]; intros p Hp Hal Hfuel; [lia|].
  cbn [file_loop]. destruct (Z.ltb_spec p fend) as [Hlt|Hge];
    [|discriminate].
  destruct (load8 m (p + file.type)) as [t| |] eqn:Et; cbn [bind];
    try discriminate.
  2:{ exfalso. exact (load8_not_out_of_fuel _ _ Et). }
  pose proof (load8_in_blob _ _ _ Et) as Hin. unfold file.type in Hin.
  destruct (Z.eqb_spec t SECURITY_CORE) as [Esec|Ene].
  - unfold get_sec_entry_point.
    destruct (load_size m (p + file.size)) as [sz| |] eqn:Ez; cbn [bind];
      try discriminate.
    2:{ exfalso. exact (load_size_not_out_of_fuel _ _ Ez). }
    apply load_size_inv in Ez. destruct Ez as (Hsz & _).
    unfold file.sizeof.
    rewrite (wrap64_small (p + 24)) by lia.
    rewrite wrap64_small by lia.
    rewrite align4_ptr_aligned by (lia || (Z.div_mod_to_equations; lia)).
    apply sect_loop_terminates.
    + lia.
    + Z.div_mod_to_equations; lia.
    + replace (p + 24 + sz - (p + 24) + 3) with (sz + 3) by lia.
      assert ((sz + 3) / 4 <= 1024) by (Z.div_mod_to_equations; lia).
      assert (0 <= (sz + 3) / 4) by (Z.div_mod_to_equations; lia).
      lia.
  - destruct (load_size m (p + file.size)) as [sz| |] eqn:Ez; cbn [bind];
      try discriminate.
    2:{ exfalso. exact (load_size_not_out_of_fuel _ _ Ez). }
    assert (sz <> 0) as Hnz.
    { intros ->. exact (Hfile p t ltac:(lia) Hal Et Ene Ez). }
    apply load_size_inv in Ez. destruct Ez as (Hsz & Hb0 & Hb1).
    unfold file.size in *.
    rewrite wrap64_small by lia.
    destruct (align8_ptr_spec (p + sz) ltac:(lia) ltac:(lia)) as [Hr Hm].
    apply IH.
    + lia.
    + exact Hm.
    + revert Hfuel Hr Hm Hal Hlt Hnz Hsz. generalize (align8_ptr (p + sz)).
      intros p' Hfuel Hr Hm Hal Hlt Hnz Hsz.
      assert (p + 8 <= p') by (Z.div_mod_to_equations; lia).
      assert ((fend - p' + 7) / 8 <= (fend - p + 7) / 8 - 1)
        by (Z.div_mod_to_equations; lia).
      assert (1 <= (fend - p + 7) / 8) by (Z.div_mod_to_equations; lia).
      lia.
Qed.
End Termination.

(** X12.  The loops of the probe come to an end (it returns, or reads outside
    the blob) on every file in which no entry makes a loop stand still: no
    file entry of another type than Security-Core at an 8-aligned offset of
    the scanned range, and no section of another type than TE at a 4-aligned
    offset after the volume header, has a size field that decodes to 0. *)
Theorem probe_completes_without_zero_sizes (wd : world) (path : string)
    (img : list byte) (st : state) :
  w_open wd path = Some img ->
  heap_ok (w_heap wd) (img_len img) ->
  (forall o,
     round_up 8 (img_hdr_len img) <= o < img_hdr_len img + img_fv_len img ->
     o mod 8 = 0 -> o + file.size + 3 <= img_len img ->
     byte_at img (o + file.type) <> SECURITY_CORE ->
     entry_size img (o + file.size) <> 0) ->
  (forall o,
     round_up 8 (img_hdr_len img) <= o ->
     o mod 4 = 0 -> o + sect.sizeof <= img_len img ->
     byte_at img (o + sect.type) <> SECTION_TE ->
     entry_size img (o + sect.size) <> 0) ->
  exists n, forall fuel, (n <= fuel)%nat ->
    fst (efi_probe_firmware fuel wd (Some path) st) <> OutOfFuel.
Proof.
  intros Ho Hheap Hfiles Hsects.
  set (base := w_heap wd) in *.
  set (m := mk_blob base img).
  set (h := decode_fv_hdr (firstn fv.sizeof img)).
  assert (Ehdr : hdr_len h = img_hdr_len img).
  { subst h. cbn [decode_fv_hdr hdr_len].
    rewrite slice_firstn by (vm_compute; lia). reflexivity. }
  assert (Efv : fv_len h = img_fv_len img).
  { subst h. cbn [decode_fv_hdr fv_len].
    rewrite slice_firstn by (vm_compute; lia). reflexivity. }
  pose proof (field_range img (Z.of_nat fv.hdr_len) 2) as Hhl.
  pose proof (field_range img (Z.of_nat fv.fv_len) 8) as Hfl.
  fold (img_hdr_len img) in Hhl. fold (img_fv_len img) in Hfl.
  change (256 ^ Z.of_nat 2) with 65536 in Hhl.
  pose proof (img_len_nonneg img) as Hlen0.
  pose proof Hheap as (Hh0 & Hh1 & Hh2).
  change (2 ^ 17) with 131072 in Hh2.
  assert (2 ^ 64 = 18446744073709551616) as E64 by reflexivity.
  pose proof (round_up_spec 8 (img_hdr_len img) ltac:(lia)) as [Hru Hrm].
  set (lo := base + round_up 8 (img_hdr_len img)).
  set (fend := wrap64 (base + img_hdr_len img + img_fv_len img)).
  assert (Hfend : fend <= base + img_hdr_len img + img_fv_len img).
  { subst fend. unfold wrap64.
    apply Z.mod_le; lia. }
  assert (Hbm : blob_base m = base) by reflexivity.
  assert (Hbl : blob_len m = img_len img) by reflexivity.
  assert (Hs : forall q t, lo <= q -> q mod 4 = 0 ->
            load8 m (q + sect.type) = Ret t -> t <> SECTION_TE ->
            load_size m (q + sect.size) <> Ret 0).
  { intros q t Hq Hal Et Ene Ez.
    pose proof (load8_in_blob _ _ _ Et) as Hin.
    rewrite Hbm, Hbl in Hin. unfold sect.type, sect.size in *.
    replace (q + 3) with (base + (q - base + 3)) in Et by lia.
    replace (q + 0) with (base + (q - base + 0)) in Ez by lia.
    subst m. rewrite (load8_blob base img) in Et by lia.
    rewrite (load_size_blob base img) in Ez by lia.
    apply (Hsects (q - base)).
    - subst lo. lia.
    - Z.div_mod_to_equations; lia.
    - unfold sect.sizeof. lia.
    - unfold sect.type. congruence.
    - unfold sect.size. congruence. }
  assert (Hf : forall p t, lo <= p < fend -> p mod 8 = 0 ->
            load8 m (p + file.type) = Ret t -> t <> SECURITY_CORE ->
            load_size m (p + file.size) <> Ret 0).
  { intros p t Hp Hal Et Ene Ez.
    pose proof (load8_in_blob _ _ _ Et) as Hin.
    pose proof (load_size_inv _ _ _ Ez) as (_ & Hz0 & Hz1).
    rewrite Hbm, Hbl in *. unfold file.type, file.size in *.
    replace (p + 18) with (base + (p - base + 18)) in Et by lia.
    replace (p + 20) with (base + (p - base + 20)) in Ez by lia.
    subst m. rewrite (load8_blob base img) in Et by lia.
    rewrite (load_size_blob base img) in Ez by lia.
    apply (Hfiles (p - base)).
    - subst lo. lia.
    - Z.div_mod_to_equations; lia.
    - unfold file.size. lia.
    - unfold file.type. congruence.
    - unfold file.size. congruence. }
  exists (Nat.max (Z.to_nat ((fend - lo + 7) / 8) + 1) 1025).
  intros fuel Hfuel.
  destruct (probe_runs fuel wd path img st Ho)
    as [(-> & _) | [(-> & _) | [(-> & _)
       | [(e & -> & _) | (_ & _ & <- & _)]]]]; try discriminate.
  fold base m h. unfold get_entry_point. rewrite Hbm, Ehdr, Efv.
  rewrite (wrap64_small (base + img_hdr_len img)) by lia.
  fold fend.
  assert (Hstart : align8_ptr (base + img_hdr_len img) = lo).
  { subst lo. rewrite <- (wrap64_small (base + img_hdr_len img)) by lia.
    apply (align8_ptr_blob base img); [exact Hheap|].
    change (2 ^ 16) with 65536. lia. }
  rewrite Hstart.
  apply (file_loop_terminates m lo Hheap ltac:(subst lo; lia) Hs fend Hf).
  - lia.
  - subst lo. apply add_mod_0; [lia | exact Hh1 | exact Hrm].
  - lia.
  - lia.
Qed.

Lemma erased_image_bytes (o : Z) :
  56 <= o < 88 -> byte_at erased_image o = 255.
Proof.
  intros Ho. unfold byte_at, erased_image.
  replace (Z.to_nat o) with (56 + Z.to_nat (o - 56))%nat by lia.
  change 56%nat with (length (enc_fv_hdr (zeros 16) FV_SIGNATURE 88 56)) at 1.
  rewrite app_nth2_plus.
  rewrite nth_indep with (d' := xff) by (rewrite repeat_length; lia).
  rewrite nth_repeat. reflexivity.
Qed.

Lemma erased_image_size (o : Z) :
  56 <= o -> o + 3 <= 88 -> entry_size erased_image o = 4095.
Proof.
  intros H0 H1. unfold entry_size.
  assert (img_len erased_image = 88) as Hl by reflexivity.
  rewrite !field_S, field_0 by lia.
  rewrite !erased_image_bytes by lia. reflexivity.
Qed.

Lemma probe_completes_without_zero_sizes_witness :
  exists n, forall fuel, (n <= fuel)%nat ->
    fst (efi_probe_firmware fuel (sample_world erased_image)
           (Some "fw.fd"%string) init_state) <> OutOfFuel.
Proof.
  apply (probe_completes_without_zero_sizes (sample_world erased_image)
           "fw.fd" erased_image init_state).
  - reflexivity.
  - apply sample_heap_ok. vm_compute. discriminate.
  - change (round_up 8 (img_hdr_len erased_image)) with 56.
    change (img_len erased_image) with 88.
    intros o Ho _ Hin _. unfold file.size in *.
    rewrite erased_image_size by lia. discriminate.
  - change (round_up 8 (img_hdr_len erased_image)) with 56.
    change (img_len erased_image) with 88.
    intros o Ho _ Hin _. unfold sect.size, sect.sizeof in *.
    rewrite erased_image_size by lia. discriminate.
Defined.

(** ** Reading past the blob *)

Lemma files_walk_bounds (img : list byte) (o e : Z) :
  files_walk img o e -> o <= e /\ e <= Z.max o (img_len img + 4102).
Proof.
  induction 1 as [o | o e H0 H1 Ht Hw IH].
  - lia.
  - pose proof (entry_size_range img (o + file.size)).
    pose proof (round_up_spec 8 (o + entry_size img (o + file.size))
                  ltac:(lia)).
    unfold file.sizeof in *. lia.
Qed.

Lemma file_loop_walk (base : Z) (img : list byte) (end_ o e : Z) :
  heap_ok base (img_len img) ->
  files_walk img o e -> base + e < end_ ->
  exists n, forall sfuel fuel,
    file_loop (n + fuel) sfuel (mk_blob base img) (base + o) end_
    = file_loop fuel sfuel (mk_blob base img) (base + e) end_.
Proof.
  intros Hheap Hw Hend.
  induction Hw as [o | o e H0 H1 Ht Hw IH].
  - exists 0%nat. reflexivity.
  - destruct (files_walk_bounds _ _ _ Hw) as [Hle _].
    pose proof (entry_size_range img (o + file.size)) as Hsz.
    pose proof (round_up_spec 8 (o + entry_size img (o + file.size))
                  ltac:(lia)) as [Hru _].
    destruct (IH Hend) as [n IHn]. exists (S n). intros sfuel fuel.
    cbn [Nat.add].
    rewrite (file_loop_skip _ _ _ (byte_at img (o + file.type))
               (entry_size img (o + file.size))).
    + rewrite <- Z.add_assoc, (align8_ptr_blob base img)
        by (try exact Hheap; change (2 ^ 16) with 65536;
            unfold file.sizeof in *; lia).
      apply IHn.
    + apply Z.ltb_lt. lia.
    + rewrite <- Z.add_assoc. apply (load8_blob base img).
      unfold file.sizeof, file.type in *. lia.
    + apply Z.eqb_neq. exact Ht.
    + rewrite <- Z.add_assoc. apply (load_size_blob base img);
        unfold file.sizeof, file.size in *; lia.
Qed.

(** X13.  The file-entry scan ends at offset [hdr_len + fv_len], not at the
    end of the file.  Whenever the entries of an accepted image, whose volume
    length does not exceed the file length, lead without a Security-Core
    file to an offset below that bound whose type field lies beyond the last
    byte of the file, the scan reads that byte: the probe reads past the
    blob. *)
Theorem file_scan_reads_past_blob (wd : world) (path : string)
    (img : list byte) (st : state) (e : Z) :
  w_open wd path = Some img ->
  w_read_error wd (st_reads st) = false ->
  w_read_error wd (S (st_reads st)) = false ->
  heap_ok (w_heap wd) (img_len img) ->
  header_accepted img ->
  files_walk img (round_up 8 (img_hdr_len img)) e ->
  img_fv_len img <= img_len img ->
  e < img_hdr_len img + img_fv_len img ->
  img_len img <= e + file.type ->
  exists n, forall fuel, (n <= fuel)%nat ->
    fst (efi_probe_firmware fuel wd (Some path) st)
    = OutOfBounds (w_heap wd + e + file.type).
Proof.
  intros Ho He1 He2 Hheap Hhdr Hw Hfv Hlt Hout.
  assert (Hlen : (fv.sizeof <= length img)%nat) by apply Hhdr.
  destruct (decode_fv_hdr_fields img Hlen) as [Efv Ehdr].
  pose proof (field_range img (Z.of_nat fv.hdr_len) 2) as Hhl.
  pose proof (field_range img (Z.of_nat fv.fv_len) 8) as Hfl.
  fold (img_hdr_len img) in Hhl. fold (img_fv_len img) in Hfl.
  change (256 ^ Z.of_nat 2) with 65536 in Hhl.
  pose proof (img_len_nonneg img) as Hlen0.
  pose proof (round_up_spec 8 (img_hdr_len img) ltac:(lia)) as [Hru _].
  destruct (files_walk_bounds _ _ _ Hw) as [Hle Hmax].
  pose proof Hheap as (Hh0 & Hh1 & Hh2).
  change (2 ^ 17) with 131072 in Hh2.
  assert (2 ^ 64 = 18446744073709551616) as E64 by reflexivity.
  set (base := w_heap wd) in *.
  set (end_ := wrap64 (base + img_hdr_len img + img_fv_len img)).
  assert (Hend : base + e < end_).
  { subst end_. rewrite wrap64_small by lia. lia. }
  destruct (file_loop_walk base img end_ _ _ Hheap Hw ltac:(lia)) as [n Hn].
  exists (S n). intros fuel Hfuel.
  destruct (probe_reaches_scan fuel wd path img st Ho He1 He2)
    as (st1 & _ & ->); [fold base; lia | exact Hhdr |].
  fold base.
  assert (Hscan : get_entry_point fuel (mk_blob base img)
                    (decode_fv_hdr (firstn fv.sizeof img))
                  = OutOfBounds (base + e + file.type)).
  { unfold get_entry_point. cbn [blob_base]. rewrite Efv, Ehdr.
    rewrite (align8_ptr_blob base img)
      by (try exact Hheap; change (2 ^ 16) with 65536; lia).
    rewrite (wrap64_small (base + img_hdr_len img)) by lia.
    fold end_.
    replace fuel with (n + S (fuel - S n))%nat at 1 by lia.
    rewrite Hn. cbn [file_loop].
    replace (base + e <? end_) with true by (symmetry; apply Z.ltb_lt; lia).
    rewrite (load8_outside base img) by (unfold file.type in *; lia).
    reflexivity. }
  rewrite Hscan. reflexivity.
Qed.

Lemma file_scan_reads_past_blob_witness :
  exists n, forall fuel, (n <= fuel)%nat ->
    fst (efi_probe_firmware fuel (sample_world single_volume_image)
           (Some "fw.fd"%string) init_state)
    = OutOfBounds (w_heap (sample_world single_volume_image) + 88 + file.type).
Proof.
  apply (file_scan_reads_past_blob (sample_world single_volume_image)
           "fw.fd" single_volume_image init_state 88).
  - reflexivity.
  - reflexivity.
  - reflexivity.
  - apply sample_heap_ok. vm_compute. discriminate.
  - repeat split; closed.
  - change (round_up 8 (img_hdr_len single_volume_image)) with 56.
    apply files_walk_skip; [closed | closed | closed |].
    change (round_up 8 (56 + entry_size single_volume_image (56 + file.size)))
      with 88.
    apply files_walk_here.
  - closed.
  - closed.
  - closed.
Defined.
